(** * Brute-force integer LP solvers: a shallow embedding and its properties

    Embedded sources:
    - [src/brute_force_lp/friendly.py]: [_feasible], [brute_force_lp_friendly]
      (the sense-aware exhaustive searcher and its constraint report);
    - [src/brute_force_lp/core.py]: [brute_force_lp] (the plain exhaustive
      solver) and [sample_lp] (the Monte-Carlo sampler).

    Modelling conventions.
    - A Python [dict] with string keys is a [gmap string _]; where the
      iteration order of a dict is observable ([lp["vars"]]) it is an
      association list whose keys are pairwise distinct.
    - Numbers are Python integers (unbounded, [Z]) together with the three
      special floats the code can create from [float("inf")]: [-inf], [+inf]
      and [nan].  Finite floating-point coefficients are outside the model.
      The values drawn by the sampler are numpy [int64] scalars, with
      64-bit wrap-around in their sums.
    - Exceptions are values of [exn]; a computation that may raise has type
      [result A].
    - Console output ([print]) is not part of any returned value and is left
      out; the counter of feasible combinations that drives it is kept. *)

From stdpp Require Import base option list strings gmap fin_maps sorting.
From Stdlib Require Import ZArith Lia.
From Stdlib Require Ascii String.

Local Open Scope string_scope.
Local Open Scope list_scope.
Local Open Scope Z_scope.

(** ** Exceptions and the error monad *)

Inductive exn : Type :=
| KeyError (key : string)
| ValueError (msg : string)
| OverflowError (msg : string).

Inductive result (A : Type) : Type :=
| Ok (a : A)
| Raise (e : exn).
Arguments Ok {A} a.
Arguments Raise {A} e.

#[global] Instance result_ret : MRet result := fun A a => Ok a.
#[global] Instance result_bind : MBind result := fun A B f m =>
  match m with
  | Ok a => f a
  | Raise e => Raise e
  end.

(** [for x in l: st = f(st, x)] where the body may raise. *)
Fixpoint for_each {S X : Type} (f : S → X → result S) (l : list X) (st : S)
  : result S :=
  match l with
  | [] => Ok st
  | x :: l' => st' ← f st x; for_each f l' st'
  end.

(** [d[k]]: a failed lookup raises [KeyError]. *)
Definition getitem {V : Type} (d : gmap string V) (k : string) : result V :=
  match d !! k with
  | Some v => Ok v
  | None => Raise (KeyError k)
  end.

(** ** Python numbers *)

Inductive pynum : Type :=
| Int (z : Z)
| NegInf
| PosInf
| NaN.

(** Converting an [int] to [float] (which mixed arithmetic does) raises
    [OverflowError] when the integer rounds beyond the largest double. *)
Definition float_overflows (z : Z) : bool :=
  2 ^ 1024 - 2 ^ 970 <=? Z.abs z.

Definition int_too_large : exn :=
  OverflowError "int too large to convert to float".

(** [a * b]. *)
Definition pynum_mul (a b : pynum) : result pynum :=
  match a, b with
  | Int x, Int y => Ok (Int (x * y))
  | NaN, Int x | Int x, NaN =>
      if float_overflows x then Raise int_too_large else Ok NaN
  | Int x, PosInf | PosInf, Int x =>
      if float_overflows x then Raise int_too_large
      else Ok (if x =? 0 then NaN else if 0 <? x then PosInf else NegInf)
  | Int x, NegInf | NegInf, Int x =>
      if float_overflows x then Raise int_too_large
      else Ok (if x =? 0 then NaN else if 0 <? x then NegInf else PosInf)
  | NaN, _ | _, NaN => Ok NaN
  | PosInf, PosInf | NegInf, NegInf => Ok PosInf
  | PosInf, NegInf | NegInf, PosInf => Ok NegInf
  end.

(** [a + b]. *)
Definition pynum_add (a b : pynum) : result pynum :=
  match a, b with
  | Int x, Int y => Ok (Int (x + y))
  | Int x, (PosInf | NegInf | NaN) as f | (PosInf | NegInf | NaN) as f, Int x =>
      if float_overflows x then Raise int_too_large else Ok f
  | NaN, _ | _, NaN => Ok NaN
  | PosInf, PosInf => Ok PosInf
  | NegInf, NegInf => Ok NegInf
  | PosInf, NegInf | NegInf, PosInf => Ok NaN
  end.

(** [a - b]. *)
Definition pynum_neg (a : pynum) : pynum :=
  match a with
  | Int x => Int (- x)
  | NegInf => PosInf
  | PosInf => NegInf
  | NaN => NaN
  end.

Definition pynum_sub (a b : pynum) : result pynum := pynum_add a (pynum_neg b).

(** [a < b]; comparisons between an [int] and a [float] are exact and never
    raise, and every comparison with [nan] is false. *)
Definition pynum_lt (a b : pynum) : bool :=
  match a, b with
  | NaN, _ | _, NaN => false
  | Int x, Int y => x <? y
  | NegInf, NegInf => false
  | NegInf, _ => true
  | _, NegInf => false
  | PosInf, _ => false
  | _, PosInf => true
  end.

Definition pynum_gt (a b : pynum) : bool := pynum_lt b a.

(** [a != b]. *)
Definition pynum_ne (a b : pynum) : bool :=
  match a, b with
  | Int x, Int y => negb (x =? y)
  | NegInf, NegInf | PosInf, PosInf => false
  | _, _ => true
  end.

(** [sum(f(v) for v in vs)]: starts from the integer [0] and adds the terms
    from left to right; a term that raises stops the summation. *)
Definition py_sum {X : Type} (f : X → result pynum) (vs : list X)
  : result pynum :=
  for_each (fun acc v => t ← f v; pynum_add acc t) vs (Int 0).

(** ** [range(0, stop, step)] *)

Definition range_len (stop step : Z) : Z :=
  if 0 <? step then Z.max 0 ((stop + step - 1) `div` step)
  else Z.max 0 ((- stop + - step - 1) `div` (- step)).

(** The values of [range(0, stop, step)] for a non-zero [step]. *)
Definition range_values (stop step : Z) : list Z :=
  (fun k : nat => Z.of_nat k * step) <$> seq 0 (Z.to_nat (range_len stop step)).

Definition py_range (stop step : Z) : result (list Z) :=
  if step =? 0 then Raise (ValueError "range() arg 3 must not be zero")
  else Ok (range_values stop step).

(** ** The problem description (the parsed LP JSON)

    [{"objective": {"sense": .., "coeff": {..}},
      "vars": {v: {"ub": ..}, ..},
      "constraints": [{"name": .., "coeff": {..}, "sense": .., "rhs": ..}, ..]}]
    The optional keys ([sense]) are options; [vars] keeps the insertion order
    of the dict. *)

Record objective_t : Type := {
  obj_sense : option string;
  obj_coeff : gmap string Z
}.

Record constraint : Type := {
  name : string;
  coeff : gmap string Z;
  sense : option string;
  rhs : Z
}.

Record lp_t : Type := {
  vars : list (string * Z);
  objective : objective_t;
  constraints : list constraint
}.

(** [vars_ = list(lp["vars"].keys())] and
    [bounds = [lp["vars"][v]["ub"] for v in vars_]]. *)
Definition var_names (lp : lp_t) : list string := (vars lp).*1.
Definition bounds (lp : lp_t) : list Z := (vars lp).*2.

(** [con.get("sense", "<=")]. *)
Definition con_sense (con : constraint) : string := default "<=" (sense con).

(** [s.lower()], on the ASCII letters.  No character outside ASCII has a
    lower-case form among the letters of ["max"], so the test
    [s.lower() == "max"] is decided by the ASCII part. *)
Definition ascii_lower (c : Ascii.ascii) : Ascii.ascii :=
  let n := Ascii.N_of_ascii c in
  if ((65 <=? n) && (n <=? 90))%N then Ascii.ascii_of_N (n + 32) else c.

Fixpoint lower (s : string) : string :=
  match s with
  | EmptyString => EmptyString
  | String c s' => String (ascii_lower c) (lower s')
  end.

(** ** friendly.py *)

Module Friendly.

(** [sum(con["coeff"].get(v, 0) * d[v] for v in vars_)] *)
Definition lhs_of (con : constraint) (d : gmap string pynum)
    (vars_ : list string) : result pynum :=
  py_sum (fun v => x ← getitem d v;
                   pynum_mul (Int (default 0 (coeff con !! v))) x) vars_.

(** [_feasible(trial, constraints, vars_)] *)
Fixpoint _feasible (trial : gmap string pynum) (constraints : list constraint)
    (vars_ : list string) : result bool :=
  match constraints with
  | [] => Ok true
  | con :: rest =>
      lhs ← lhs_of con trial vars_;
      let rhs := Int (rhs con) in
      let sense := con_sense con in
      if (String.eqb sense "<=" && pynum_gt lhs rhs)
         || (String.eqb sense ">=" && pynum_lt lhs rhs)
         || (String.eqb sense "=" && pynum_ne lhs rhs)
      then Ok false
      else _feasible trial rest vars_
  end.

(** The running state of the search: the [nonlocal] variables of [recurse]. *)
Record search_state : Type := {
  best_obj : pynum;
  best_soln : option (gmap string pynum);
  counter : Z
}.

(** [sum(lp["objective"]["coeff"][v] * trial[v] for v in vars_)] *)
Definition objective_of (lp : lp_t) (trial : gmap string pynum)
    (vars_ : list string) : result pynum :=
  py_sum (fun v => c ← getitem (obj_coeff (objective lp)) v;
                   x ← getitem trial v;
                   pynum_mul (Int c) x) vars_.

(** [lp["objective"].get("sense", "max").lower() == "max"] *)
Definition is_max (lp : lp_t) : bool :=
  String.eqb (lower (default "max" (obj_sense (objective lp)))) "max".

(** The body of [recurse] when [level == len(vars_)]: one complete trial. *)
Definition visit (lp : lp_t) (trial : gmap string pynum) (st : search_state)
  : result search_state :=
  ok ← _feasible trial (constraints lp) (var_names lp);
  if negb ok then Ok st
  else
    let counter' := counter st + 1 in
    obj ← objective_of lp trial (var_names lp);
    let better :=
      if is_max lp then pynum_gt obj (best_obj st)
      else pynum_lt obj (best_obj st) in
    if better
    then Ok {| best_obj := obj; best_soln := Some trial; counter := counter' |}
    else Ok {| best_obj := best_obj st; best_soln := best_soln st;
               counter := counter' |}.

(** [recurse(level, trial)], with [rest] the declarations
    [vars_[level:]] together with their bounds. *)
Fixpoint recurse (lp : lp_t) (step : Z) (rest : list (string * Z))
    (trial : gmap string pynum) (st : search_state) : result search_state :=
  match rest with
  | [] => visit lp trial st
  | (var, ub) :: rest' =>
      vals ← py_range (ub + 1) step;
      for_each (fun st' val => recurse lp step rest' (<[var := Int val]> trial) st')
               vals st
  end.

(** One row of the constraint report. *)
Record row : Type := {
  row_constraint : string;
  row_lhs : pynum;
  row_rhs : Z;
  row_sense : string;
  row_slack : pynum
}.

Definition report_row (con : constraint) (best_soln : gmap string pynum)
    (vars_ : list string) : result row :=
  lhs ← lhs_of con best_soln vars_;
  let sense := con_sense con in
  slack ← (if String.eqb sense "<=" then pynum_sub (Int (rhs con)) lhs
           else if String.eqb sense ">=" then pynum_sub lhs (Int (rhs con))
           else Ok (Int 0));
  Ok {| row_constraint := name con; row_lhs := lhs; row_rhs := rhs con;
        row_sense := sense; row_slack := slack |}.

(** The report loop: one row per constraint, appended in order. *)
Definition build_report (lp : lp_t) (best_soln : gmap string pynum)
  : result (list row) :=
  mapM (fun con => report_row con best_soln (var_names lp)) (constraints lp).

Definition no_feasible : exn := ValueError "No feasible solution found.".

(** [brute_force_lp_friendly(lp, step)] *)
Definition brute_force_lp_friendly (lp : lp_t) (step : Z)
  : result (gmap string pynum * list row) :=
  let init := {| best_obj := if is_max lp then NegInf else PosInf;
                 best_soln := None; counter := 0 |} in
  st ← recurse lp step (vars lp) ∅ init;
  match best_soln st with
  | None => Raise no_feasible
  | Some soln =>
      let best_soln := <["objective" := best_obj st]> soln in
      report ← build_report lp best_soln;
      Ok (best_soln, report)
  end.

End Friendly.

(** ** core.py *)

Module Core.

(** [sum(c[v] * d[v] for v in vars_)] *)
Definition dot (c : gmap string Z) (d : gmap string pynum)
    (vars_ : list string) : result pynum :=
  py_sum (fun v => k ← getitem c v; x ← getitem d v; pynum_mul (Int k) x) vars_.

(** [itertools.product] over the pools: the rightmost pool advances fastest. *)
Fixpoint product (pools : list (list Z)) : list (list Z) :=
  match pools with
  | [] => [[]]
  | pool :: pools' => x ← pool; (x ::.) <$> product pools'
  end.

(** [dict(pairs)]: a later pair overrides an earlier one with the same key. *)
Definition dict_of (pairs : list (string * pynum)) : gmap string pynum :=
  foldl (fun d kv => <[kv.1 := kv.2]> d) ∅ pairs.

(** The feasibility loop of lines 27-32: [lhs > con["rhs"]] for every
    constraint, whatever else the constraint record holds. *)
Fixpoint feasible (trial : gmap string pynum) (constraints : list constraint)
    (vars_ : list string) : result bool :=
  match constraints with
  | [] => Ok true
  | con :: rest =>
      lhs ← dot (coeff con) trial vars_;
      if pynum_gt lhs (Int (rhs con)) then Ok false
      else feasible trial rest vars_
  end.

(** The body of the search loop for one [combo]. *)
Definition try_combo (lp : lp_t) (best : gmap string pynum) (combo : list Z)
  : result (gmap string pynum) :=
  let vars_ := var_names lp in
  let trial := dict_of (zip vars_ (Int <$> combo)) in
  ok ← feasible trial (constraints lp) vars_;
  if negb ok then Ok best
  else
    obj ← dot (obj_coeff (objective lp)) trial vars_;
    cur ← getitem best "objective";
    if pynum_gt obj cur then Ok (<["objective" := obj]> trial) else Ok best.

Record row : Type := {
  row_constraint : string;
  row_lhs : pynum;
  row_rhs : Z
}.

Definition report_row (con : constraint) (best : gmap string pynum)
    (vars_ : list string) : result row :=
  lhs ← dot (coeff con) best vars_;
  Ok {| row_constraint := name con; row_lhs := lhs; row_rhs := rhs con |}.

(** [brute_force_lp(lp, step)] *)
Definition brute_force_lp (lp : lp_t) (step : Z)
  : result (gmap string pynum * list row) :=
  let vars_ := var_names lp in
  let best0 : gmap string pynum := {[ "objective" := NegInf ]} in
  pools ← mapM (fun ub => py_range (ub + 1) step) (bounds lp);
  best ← for_each (try_combo lp) (product pools) best0;
  report ← mapM (fun con => report_row con best vars_) (constraints lp);
  Ok (best, report).

(** *** [sample_lp]

    [pandas.DataFrame(rows)] is the list of its rows; its columns are the
    keys that occur in some row, so the frame built from no rows has no
    column at all, and [sort_values(col)] raises [KeyError(col)] when [col] is
    not a column.  A cell missing from a row reads as [nan], and
    [sort_values] puts [nan] last.  The order of rows with equal keys is not
    fixed by pandas' default sort: the model sorts an arbitrary
    rearrangement [shuffle df] of the rows with a stable sort, which covers
    every order that equal rows can come out in. *)

Definition columns (df : list (gmap string pynum)) : gset string :=
  ⋃ (dom <$> df).

Definition cell (col : string) (r : gmap string pynum) : pynum :=
  default NaN (r !! col).

(** [a] may stand before [b] in a descending sort. *)
Definition desc_le (a b : pynum) : bool :=
  match a, b with
  | _, NaN => true
  | NaN, _ => false
  | _, _ => negb (pynum_lt a b)
  end.

Definition row_before (col : string) (r1 r2 : gmap string pynum) : Prop :=
  desc_le (cell col r1) (cell col r2) = true.

#[global] Instance row_before_dec col r1 r2 : Decision (row_before col r1 r2).
Proof. unfold row_before. apply _. Defined.

(** [df.sort_values(col, ascending=False)] *)
Definition sort_values_desc
    (shuffle : list (gmap string pynum) → list (gmap string pynum))
    (col : string) (df : list (gmap string pynum))
  : result (list (gmap string pynum)) :=
  if decide (col ∈ columns df) then Ok (merge_sort (row_before col) (shuffle df))
  else Raise (KeyError col).

(** *** numpy [int64]

    The values that [rng.integers] returns are numpy [int64] scalars, so the
    sums of the sampler are 64-bit: a Python integer operand is converted to
    [int64] (numpy 2 raises [OverflowError] when it does not fit), and a
    product or sum beyond the 64-bit range wraps around.  Comparisons with a
    Python integer are exact. *)

Definition fits_int64 (z : Z) : bool :=
  (- 2 ^ 63 <=? z) && (z <=? 2 ^ 63 - 1).

Definition wrap64 (z : Z) : Z := (z + 2 ^ 63) `mod` 2 ^ 64 - 2 ^ 63.

Definition int_out_of_bounds : exn :=
  OverflowError "Python integer out of bounds for int64".

(** [k * x] for a Python integer [k] and a drawn value [x]. *)
Definition int64_mul (k : Z) (x : pynum) : result pynum :=
  match x with
  | Int z =>
      if fits_int64 k then Ok (Int (wrap64 (k * z))) else Raise int_out_of_bounds
  | _ => pynum_mul (Int k) x
  end.

(** [a + b] in the summation of such products. *)
Definition int64_add (a b : pynum) : result pynum :=
  match a, b with
  | Int x, Int y => Ok (Int (wrap64 (x + y)))
  | _, _ => pynum_add a b
  end.

(** [sum(c[v] * trial[v] for v in vars_)] on a drawn trial. *)
Definition dot64 (c : gmap string Z) (trial : gmap string pynum)
    (vars_ : list string) : result pynum :=
  for_each (fun acc v =>
              t ← (k ← getitem c v; x ← getitem trial v; int64_mul k x);
              int64_add acc t)
           vars_ (Int 0).

(** [any(sum(...) > con["rhs"] for con in lp["constraints"])] *)
Fixpoint any_violated (trial : gmap string pynum) (constraints : list constraint)
    (vars_ : list string) : result bool :=
  match constraints with
  | [] => Ok false
  | con :: rest =>
      lhs ← dot64 (coeff con) trial vars_;
      if pynum_gt lhs (Int (rhs con)) then Ok true
      else any_violated trial rest vars_
  end.

Section Sampler.
  (** [numpy.random.Generator]: the generator state, its construction from
      an optional seed, and the draw [rng.integers(low, high)], which
      returns the drawn integer and the next state; and the order in which
      the sort leaves equal rows. *)
Context {rng_t : Type}.
Variable default_rng : option Z → rng_t.
Variable integers : rng_t → Z → Z → Z * rng_t.
Variable shuffle : list (gmap string pynum) → list (gmap string pynum).

  (** [{v: rng.integers(0, ub + 1) for v, ub in zip(vars_, bounds)}];
      [integers(0, high)] checks that [high - 1] is an [int64] and that
      the interval is not empty, and returns an [int64]. *)
Fixpoint draw_trial (vbs : list (string * Z)) (trial : gmap string pynum)
      (g : rng_t) : result (gmap string pynum * rng_t) :=
    match vbs with
    | [] => Ok (trial, g)
    | (v, ub) :: vbs' =>
        if 2 ^ 63 - 1 <? ub
        then Raise (ValueError "high is out of bounds for int64")
        else if ub <? 0 then Raise (ValueError "high <= 0")
        else
          let '(x, g') := integers g 0 (ub + 1) in
          draw_trial vbs' (<[v := Int (wrap64 x)]> trial) g'
    end.

  (** One iteration of the sampling loop. *)
Definition sample_once (lp : lp_t)
      (acc : list (gmap string pynum) * rng_t)
    : result (list (gmap string pynum) * rng_t) :=
    let vars_ := var_names lp in
    let rows := fst acc in
    tg ← draw_trial (zip vars_ (bounds lp)) ∅ (snd acc);
    let trial := fst tg in
    let g' := snd tg in
    bad ← any_violated trial (constraints lp) vars_;
    if (bad : bool) then Ok (rows, g')
    else
      obj ← dot64 (obj_coeff (objective lp)) trial vars_;
      Ok (rows ++ [<["objective" := obj]> trial], g').

  (** The rows collected by the loop [for _ in range(num_samples)]. *)
Definition sample_rows (lp : lp_t) (num_samples : Z) (g : rng_t)
    : result (list (gmap string pynum) * rng_t) :=
    for_each (fun acc _ => sample_once lp acc) (range_values num_samples 1)
             ([], g).

  (** [sample_lp(lp, num_samples, seed)] *)
Definition sample_lp (lp : lp_t) (num_samples : Z) (seed : option Z)
    : result (list (gmap string pynum)) :=
    let rng := default_rng seed in
    acc ← sample_rows lp num_samples rng;
    df ← sort_values_desc shuffle "objective" (fst acc);
    Ok (take 10 df).
End Sampler.

End Core.

(** ** lp_parser/core.py

    [_llm_extract] is the call to the language-model service and
    [json.loads] is the standard decoder: both are parameters.  The
    decoder returns the decoded value or the text of its
    [JSONDecodeError].  Exceptions of the service call itself are outside
    the model. *)

Module Parser.

(** The values that [json.loads] produces; an object keeps its keys once,
    in the order of first appearance. *)
#[local] Unset Elimination Schemes.
Inductive json : Type :=
| JNull
| JBool (b : bool)
| JInt (z : Z)
| JFloat (literal : string)
| JStr (s : string)
| JArr (items : list json)
| JObj (fields : list (string * json)).
#[local] Set Elimination Schemes.

(** The exceptions of the parser: those of [exn], and [TypeError], kept
    with the name of the offending type. *)
Inductive error : Type :=
| Exn (e : exn)
| TypeError (type_name : string).

Inductive outcome (A : Type) : Type :=
| Return (a : A)
| Fail (e : error).
Arguments Return {A} a.
Arguments Fail {A} e.

(** [needle in s] for two strings: [needle] occurs in [s]. *)
Fixpoint contains (needle s : string) : bool :=
  String.prefix needle s ||
  match s with
  | String.EmptyString => false
  | String.String _ s' => contains needle s'
  end.

Definition is_str (key : string) (j : json) : bool :=
  match j with
  | JStr t => String.eqb key t
  | _ => false
  end.

(** [key in lp] for a string [key]: key membership in a dict, element
    membership in a list, occurrence in a string, [TypeError] otherwise. *)
Definition py_in (key : string) (lp : json) : outcome bool :=
  match lp with
  | JObj fields => Return (bool_decide (key ∈ fields.*1))
  | JArr items => Return (existsb (is_str key) items)
  | JStr s => Return (contains key s)
  | JNull => Fail (TypeError "NoneType")
  | JBool _ => Fail (TypeError "bool")
  | JInt _ => Fail (TypeError "int")
  | JFloat _ => Fail (TypeError "float")
  end.

Definition missing_keys : error :=
  Exn (ValueError "Parsed JSON missing required keys.").

(** The validation
    ["objective" not in lp or "vars" not in lp or "constraints" not in lp],
    evaluated from left to right, then [return lp]. *)
Definition validate (lp : json) : outcome json :=
  match py_in "objective" lp with
  | Fail e => Fail e
  | Return false => Fail missing_keys
  | Return true =>
      match py_in "vars" lp with
      | Fail e => Fail e
      | Return false => Fail missing_keys
      | Return true =>
          match py_in "constraints" lp with
          | Fail e => Fail e
          | Return false => Fail missing_keys
          | Return true => Return lp
          end
      end
  end.

Section Parse.
Variable _llm_extract : string → string → string.
Variable json_loads : string → string + json.

(** [parse_word_problem(problem_text, model)] *)
Definition parse_word_problem (problem_text model : string) : outcome json :=
  let raw := _llm_extract problem_text model in
  match json_loads raw with
  | inl e => Fail (Exn (ValueError ("LLM did not return valid JSON: " +:+ e)))
  | inr lp => validate lp
  end.
End Parse.

End Parser.

(** ** Specification vocabulary

    An assignment is read off a dict at the declared variables: [value d v]
    is the integer stored under [v]. *)

Definition value (d : gmap string pynum) (v : string) : Z :=
  match d !! v with
  | Some (Int z) => z
  | _ => 0
  end.

(** [d] is a complete assignment over [vs]: an integer for each variable. *)
Definition complete (d : gmap string pynum) (vs : list string) : Prop :=
  ∀ v, v ∈ vs → ∃ z, d !! v = Some (Int z).

Definition Zsum {X : Type} (g : X → Z) (vs : list X) : Z :=
  foldr (fun v s => g v + s) 0 vs.

(** [Σ coeff[v] * d[v]] over the variables [vs], a missing coefficient
    counting as zero. *)
Definition weighted_sum (c : gmap string Z) (d : gmap string pynum)
    (vs : list string) : Z :=
  Zsum (fun v => default 0 (c !! v) * value d v) vs.

(** The constraint holds under its sense for the left-hand value [lhs]. *)
Definition holds (con : constraint) (lhs : Z) : Prop :=
  (con_sense con = "<=" → lhs ≤ rhs con) ∧
  (con_sense con = ">=" → rhs con ≤ lhs) ∧
  (con_sense con = "=" → lhs = rhs con).

Definition satisfies (cons : list constraint) (d : gmap string pynum)
    (vs : list string) : Prop :=
  Forall (fun con => holds con (weighted_sum (coeff con) d vs)) cons.

(** The slack the report shows for [con] at left-hand value [lhs]. *)
Definition slack_spec (con : constraint) (lhs : Z) (slack : pynum) : Prop :=
  (con_sense con = "<=" → slack = Int (rhs con - lhs)) ∧
  (con_sense con = ">=" → slack = Int (lhs - rhs con)) ∧
  (con_sense con = "=" → slack = Int 0).

(** The report row [r] is the row of constraint [con] for the assignment [d]. *)
Definition row_for (d : gmap string pynum) (vs : list string)
    (con : constraint) (r : Friendly.row) : Prop :=
  Friendly.row_constraint r = name con ∧
  Friendly.row_lhs r = Int (weighted_sum (coeff con) d vs) ∧
  Friendly.row_rhs r = rhs con ∧
  Friendly.row_sense r = con_sense con ∧
  slack_spec con (weighted_sum (coeff con) d vs) (Friendly.row_slack r).

(** The declared sense of the objective, ["max"] when unspecified. *)
Definition objective_sense (lp : lp_t) : string :=
  default "max" (obj_sense (objective lp)).

(** [d] lies on the grid: every declared variable holds one of
    [0, step, 2*step, ...] not above its upper bound. *)
Definition in_grid (vbs : list (string * Z)) (step : Z)
    (d : gmap string pynum) : Prop :=
  ∀ v ub, (v, ub) ∈ vbs →
    ∃ k : Z, 0 ≤ k ∧ k * step ≤ ub ∧ d !! v = Some (Int (k * step)).

(** [d] satisfies every constraint of [lp] under its sense. *)
Definition feasible_at (lp : lp_t) (d : gmap string pynum) : Prop :=
  satisfies (constraints lp) d (var_names lp).

Definition objective_value (lp : lp_t) (d : gmap string pynum) : Z :=
  weighted_sum (obj_coeff (objective lp)) d (var_names lp).

(** [x] is strictly better than [y] for the objective of [lp]. *)
Definition strictly_better (lp : lp_t) (x y : Z) : Prop :=
  if Friendly.is_max lp then y < x else x < y.

(** [d] and [d'] give every variable of [vs] the same entry. *)
Definition same_on (vs : list string) (d d' : gmap string pynum) : Prop :=
  ∀ v, v ∈ vs → d !! v = d' !! v.

(** [d] comes before [d'] in the Cartesian product taken in declaration
    order, the first variable outermost: they agree on a prefix of the
    variables and [d] is smaller at the next one. *)
Definition lex_lt (vs : list string) (d d' : gmap string pynum) : Prop :=
  ∃ vs1 v vs2, vs = vs1 ++ v :: vs2 ∧
               (∀ w, w ∈ vs1 → value d w = value d' w) ∧
               value d v < value d' v.

(** The complete trials in the order in which [recurse] visits them. *)
Fixpoint enum (step : Z) (rest : list (string * Z))
    (trial : gmap string pynum) : list (gmap string pynum) :=
  match rest with
  | [] => [trial]
  | (var, ub) :: rest' =>
      val ← range_values (ub + 1) step; enum step rest' (<[var := Int val]> trial)
  end.

(** The search loop over a list of complete trials. *)
Definition visit_all (lp : lp_t) (l : list (gmap string pynum))
    (st : Friendly.search_state) : result Friendly.search_state :=
  for_each (fun st' t => Friendly.visit lp t st') l st.

Definition init_obj (lp : lp_t) : pynum :=
  if Friendly.is_max lp then NegInf else PosInf.

Definition init_state (lp : lp_t) : Friendly.search_state :=
  {| Friendly.best_obj := init_obj lp; Friendly.best_soln := None;
     Friendly.counter := 0 |}.

(** What the search state records after the trials [l]: no feasible trial
    so far, or the first of the best feasible ones. *)
Definition search_inv (lp : lp_t) (l : list (gmap string pynum))
    (st : Friendly.search_state) : Prop :=
  match Friendly.best_soln st with
  | None =>
      Friendly.best_obj st = init_obj lp ∧ Forall (fun u => ¬ feasible_at lp u) l
  | Some t =>
      ∃ l1 l2, l = l1 ++ t :: l2 ∧
        Friendly.best_obj st = Int (objective_value lp t) ∧
        feasible_at lp t ∧
        Forall (fun u => feasible_at lp u →
                  strictly_better lp (objective_value lp t) (objective_value lp u)) l1 ∧
        Forall (fun u => feasible_at lp u →
                  ¬ strictly_better lp (objective_value lp u) (objective_value lp t)) l2
  end.

(** The returned dict [best], read as an assignment with its objective
    value, is a feasible grid point that attains the optimum of the
    declared sense. *)
Definition optimum_on_grid (lp : lp_t) (step : Z)
    (best : gmap string pynum) : Prop :=
  in_grid (vars lp) step best ∧
  feasible_at lp best ∧
  best !! "objective" = Some (Int (objective_value lp best)) ∧
  (objective_sense lp = "max" →
     ∀ d, in_grid (vars lp) step d → feasible_at lp d →
          objective_value lp d ≤ objective_value lp best) ∧
  (objective_sense lp = "min" →
     ∀ d, in_grid (vars lp) step d → feasible_at lp d →
          objective_value lp best ≤ objective_value lp d).



(** Every constraint has [lhs <= rhs], whatever its sense. *)
Definition le_satisfies (cons : list constraint) (d : gmap string pynum)
    (vs : list string) : Prop :=
  Forall (fun con => weighted_sum (coeff con) d vs ≤ rhs con) cons.

(** [d] passes the feasibility loop of the plain solver. *)
Definition plain_passes (lp : lp_t) (d : gmap string pynum) : Prop :=
  Core.feasible d (constraints lp) (var_names lp) = Ok true.

(** The trial that the plain solver builds from a combination. *)
Definition trial_of (lp : lp_t) (combo : list Z) : gmap string pynum :=
  Core.dict_of (zip (var_names lp) (Int <$> combo)).

(** The pools of values that the plain solver multiplies out. *)
Definition pools_of (vbs : list (string * Z)) (step : Z) : list (list Z) :=
  (fun ub => range_values (ub + 1) step) <$> vbs.*2.

(** [d] gives every declared variable an integer of [[0, ub]]. *)
Definition within_bounds (vbs : list (string * Z))
    (d : gmap string pynum) : Prop :=
  ∀ v ub, (v, ub) ∈ vbs → ∃ z : Z, 0 ≤ z ≤ ub ∧ d !! v = Some (Int z).

(** What a row kept by the sampler is: an assignment within the bounds
    that passes [lhs <= rhs] for every constraint, with its objective value
    under the key ["objective"]. *)
Definition sampled_row (lp : lp_t) (r : gmap string pynum) : Prop :=
  within_bounds (vars lp) r ∧
  le_satisfies (constraints lp) r (var_names lp) ∧
  r !! "objective" = Some (Int (objective_value lp r)).

(** [r1] may stand before [r2]: its objective value is not smaller. *)
Definition objective_desc (lp : lp_t) (r1 r2 : gmap string pynum) : Prop :=
  objective_value lp r2 ≤ objective_value lp r1.

(** The largest absolute value that the 64-bit sum over the mapping [c]
    can pass through for values within the bounds. *)
Definition abs_bound (c : gmap string Z) (vbs : list (string * Z)) : Z :=
  Zsum (fun vb => Z.abs (default 0 (c !! vb.1)) * vb.2) vbs.

(** No sum of the sampler leaves the [int64] range: for the objective and
    for every constraint, [Σ |coeff[v]| * ub[v]] is below [2^63]. *)
Definition int64_safe (lp : lp_t) : Prop :=
  abs_bound (obj_coeff (objective lp)) (vars lp) ≤ 2 ^ 63 - 1 ∧
  ∀ con, con ∈ constraints lp → abs_bound (coeff con) (vars lp) ≤ 2 ^ 63 - 1.

(** Every declared variable has a coefficient in [c], and it is an [int64]. *)
Definition int64_coeffs (c : gmap string Z) (vs : list string) : Prop :=
  ∀ v, v ∈ vs → ∃ k, c !! v = Some k ∧ Core.fits_int64 k = true.

(** The description is well-formed for the sampler: every bound is a
    non-negative [int64], and every mapping has an [int64] coefficient for
    every declared variable. *)
Definition sampler_ready (lp : lp_t) : Prop :=
  (∀ v ub, (v, ub) ∈ vars lp → 0 ≤ ub ≤ 2 ^ 63 - 1) ∧
  (∀ con, con ∈ constraints lp → int64_coeffs (coeff con) (var_names lp)) ∧
  int64_coeffs (obj_coeff (objective lp)) (var_names lp).

(** [rows] are best rows of [kept]: the others, [rest], are no better. *)
Definition best_rows_of (lp : lp_t)
    (kept rows : list (gmap string pynum)) : Prop :=
  ∃ rest, kept ≡ₚ rows ++ rest ∧
          ∀ r r', r ∈ rows → r' ∈ rest →
                  objective_value lp r' ≤ objective_value lp r.

(** A linear congruential generator, used where an example needs some
    concrete generator in place of numpy's. *)
Definition lcg_default (seed : option Z) : Z := default 42 seed.

Definition lcg_integers (g low high : Z) : Z * Z :=
  (low + g `mod` (high - low), (1103515245 * g + 12345) `mod` 2147483648).

(** The problem as the plain solver reads it: every constraint is a
    ["<="] constraint and the objective is maximised. *)
Definition le_max_form (lp : lp_t) : lp_t :=
  {| vars := vars lp;
     objective := {| obj_sense := Some "max";
                     obj_coeff := obj_coeff (objective lp) |};
     constraints :=
       (fun con => {| name := name con; coeff := coeff con;
                      sense := None; rhs := rhs con |}) <$> constraints lp |}.

(** [lp] is a maximisation problem with ["<="] constraints only. *)
Definition is_le_max (lp : lp_t) : Prop :=
  Friendly.is_max lp = true ∧
  ∀ con, con ∈ constraints lp → con_sense con = "<=".

(** Every constraint gives a coefficient to every declared variable. *)
Definition coeffs_total (lp : lp_t) : Prop :=
  ∀ con v, con ∈ constraints lp → v ∈ var_names lp → is_Some (coeff con !! v).

(** The best record of the plain solver that corresponds to a state of the
    sense-aware search. *)
Definition encode_state (st : Friendly.search_state) : gmap string pynum :=
  match Friendly.best_soln st with
  | None => {[ "objective" := Friendly.best_obj st ]}
  | Some t => <["objective" := Friendly.best_obj st]> t
  end.

(** The row of the plain report with the fields of a sense-aware row. *)
Definition plain_row_of (r : Friendly.row) : Core.row :=
  {| Core.row_constraint := Friendly.row_constraint r;
     Core.row_lhs := Friendly.row_lhs r;
     Core.row_rhs := Friendly.row_rhs r |}.

(** The sense is one of the three that the evaluator knows. *)
Definition known_sense (s : string) : Prop :=
  s = "<=" ∨ s = ">=" ∨ s = "=".

(** The three names that the parser looks for. *)
Definition required_keys : list string := ["objective"; "vars"; "constraints"].

(** The slack that the report computes from the sense, [rhs] and [lhs]. *)
Definition slack_value (con : constraint) (lhs : Z) : Z :=
  if String.eqb (con_sense con) "<=" then rhs con - lhs
  else if String.eqb (con_sense con) ">=" then lhs - rhs con
  else 0.

(** The number of trials of [l] on which [_feasible] returns [True]. *)
Definition count_feasible (lp : lp_t) (l : list (gmap string pynum)) : Z :=
  Zsum (fun t => match Friendly._feasible t (constraints lp) (var_names lp) with
                 | Ok true => 1
                 | _ => 0
                 end) l.

(** Boolean forms of the side conditions, for concrete inputs. *)
Definition complete_b (d : gmap string pynum) (vs : list string) : bool :=
  forallb (fun v => match d !! v with Some (Int _) => true | _ => false end) vs.

Definition coeffs_total_b (cons : list constraint) (vs : list string) : bool :=
  forallb (fun con => forallb (fun v => bool_decide (is_Some (coeff con !! v))) vs)
          cons.

Definition int64_safe_b (lp : lp_t) : bool :=
  (abs_bound (obj_coeff (objective lp)) (vars lp) <=? 2 ^ 63 - 1) &&
  forallb (fun con => abs_bound (coeff con) (vars lp) <=? 2 ^ 63 - 1)
          (constraints lp).

(** *** Concrete problem descriptions used in the examples *)

(** One variable that is named like the merged result key. *)
Definition lp_key_clash : lp_t :=
  {| vars := [("objective", 1)];
     objective := {| obj_sense := None; obj_coeff := {[ "objective" := 2 ]} |};
     constraints := [] |}.


(** [max x] subject to [x <= -1] with [0 <= x <= 15]: nothing is feasible. *)
Definition lp_infeasible : lp_t :=
  {| vars := [("x", 15)];
     objective := {| obj_sense := Some "max"; obj_coeff := {[ "x" := 1 ]} |};
     constraints := [ {| name := "cap"; coeff := {[ "x" := 1 ]};
                         sense := None; rhs := -1 |} ] |}.

(** The objective mapping gives no coefficient to the declared [y]. *)
Definition lp_missing_coeff : lp_t :=
  {| vars := [("x", 1); ("y", 1)];
     objective := {| obj_sense := Some "max"; obj_coeff := {[ "x" := 1 ]} |};
     constraints := [ {| name := "cap"; coeff := {[ "x" := 1; "y" := 1 ]};
                         sense := Some "<="; rhs := 1 |} ] |}.

(** The only variable is named like the key of the sentinel record, and
    [objective <= -1] excludes both grid points. *)
Definition lp_sentinel : lp_t :=
  {| vars := [("objective", 1)];
     objective := {| obj_sense := None; obj_coeff := {[ "objective" := 1 ]} |};
     constraints := [ {| name := "floor"; coeff := {[ "objective" := 1 ]};
                         sense := None; rhs := -1 |} ] |}.

(** [max x] subject to [x >= 5] with [0 <= x <= 3]: nothing is feasible
    under the declared sense. *)
Definition lp_at_least : lp_t :=
  {| vars := [("x", 3)];
     objective := {| obj_sense := Some "max"; obj_coeff := {[ "x" := 1 ]} |};
     constraints := [ {| name := "floor"; coeff := {[ "x" := 1 ]};
                         sense := Some ">="; rhs := 5 |} ] |}.


(** A variable with a negative upper bound. *)
Definition lp_negative_bound : lp_t :=
  {| vars := [("x", 3); ("y", -1)];
     objective := {| obj_sense := Some "max";
                     obj_coeff := {[ "x" := 1; "y" := 1 ]} |};
     constraints := [] |}.

(** A service and a decoder that answer with a fixed JSON value. *)
Definition fixed_extract (raw : string) (problem_text model : string) : string :=
  raw.

Definition fixed_loads (value : Parser.json) (raw : string)
  : string + Parser.json := inr value.

(** [max 2^62 * x] with [0 <= x <= 3]: the objective of [x = 3] does not
    fit in 64 bits. *)
Definition lp_wide : lp_t :=
  {| vars := [("x", 3)];
     objective := {| obj_sense := Some "max";
                     obj_coeff := {[ "x" := 2 ^ 62 ]} |};
     constraints := [] |}.

(** Scenario B: [max 2x + 3y] subject to [x + y <= 5], bounds 5. *)
Definition lp_scenario_b : lp_t :=
  {| vars := [("x", 5); ("y", 5)];
     objective := {| obj_sense := Some "max";
                     obj_coeff := {[ "x" := 2; "y" := 3 ]} |};
     constraints := [ {| name := "sum"; coeff := {[ "x" := 1; "y" := 1 ]};
                         sense := None; rhs := 5 |} ] |}.

(** ** Summation lemmas *)

Lemma bind_Ok {A B : Type} (m : result A) (f : A → result B) (b : B) :
  m ≫= f = Ok b ↔ ∃ a, m = Ok a ∧ f a = Ok b.
Proof.
  destruct m as [a|e]; simpl.
  - split; [eauto | intros (a' & [= <-] & ?); done].
  - split; [done | intros (a' & ? & ?); done].
Qed.

Lemma for_each_app {S X : Type} (f : S → X → result S) (l1 l2 : list X) (st : S) :
  for_each f (l1 ++ l2) st = for_each f l1 st ≫= for_each f l2.
Proof.
  revert st. induction l1 as [|x l1 IH]; intros st; simpl; [done|].
  destruct (f st x) as [st'|e]; simpl; [apply IH | done].
Qed.

Lemma py_sum_acc {X : Type} (f : X → result pynum) (g : X → Z) (vs : list X) (a : Z) :
  (∀ v, v ∈ vs → f v = Ok (Int (g v))) →
  for_each (fun acc v => t ← f v; pynum_add acc t) vs (Int a)
  = Ok (Int (a + Zsum g vs)).
Proof.
  revert a. induction vs as [|v vs IH]; intros a Hf; simpl.
  - f_equal. f_equal. lia.
  - rewrite (Hf v) by left. simpl. rewrite IH.
    + f_equal. f_equal. lia.
    + intros w Hw. apply Hf. by right.
Qed.

Lemma py_sum_int {X : Type} (f : X → result pynum) (g : X → Z) (vs : list X) :
  (∀ v, v ∈ vs → f v = Ok (Int (g v))) → py_sum f vs = Ok (Int (Zsum g vs)).
Proof. intros Hf. unfold py_sum. by rewrite (py_sum_acc f g vs 0 Hf). Qed.

Lemma value_lookup (d : gmap string pynum) (v : string) (z : Z) :
  d !! v = Some (Int z) → value d v = z.
Proof. unfold value. by intros ->. Qed.

Lemma Zsum_ext {X : Type} (g h : X → Z) (vs : list X) :
  (∀ v, v ∈ vs → g v = h v) → Zsum g vs = Zsum h vs.
Proof.
  induction vs as [|v vs IH]; intros E; simpl; [done|].
  rewrite (E v) by left. rewrite IH; [done|]. intros w Hw. apply E. by right.
Qed.

Lemma weighted_sum_ext (c : gmap string Z) (d d' : gmap string pynum) (vs : list string) :
  (∀ v, v ∈ vs → d !! v = d' !! v) → weighted_sum c d vs = weighted_sum c d' vs.
Proof.
  intros E. apply Zsum_ext. intros v Hv. unfold value. by rewrite (E v Hv).
Qed.

Lemma complete_ext (d d' : gmap string pynum) (vs : list string) :
  (∀ v, v ∈ vs → d !! v = d' !! v) → complete d vs → complete d' vs.
Proof. intros E C v Hv. rewrite <- (E v Hv). by apply C. Qed.

(** ** The sense-aware evaluator and the report ([friendly.py]) *)

Section FriendlyEval.
Import Friendly.

Lemma lhs_of_complete con d vs :
    complete d vs → lhs_of con d vs = Ok (Int (weighted_sum (coeff con) d vs)).
  Proof.
    intros C. unfold lhs_of, weighted_sum. apply py_sum_int.
    intros v Hv. destruct (C v Hv) as [z Hz].
    unfold getitem. rewrite Hz. simpl. by rewrite (value_lookup _ _ _ Hz).
  Qed.

Lemma sense_test con (lhs : Z) :
    (String.eqb (con_sense con) "<=" && pynum_gt (Int lhs) (Int (rhs con)))
    || (String.eqb (con_sense con) ">=" && pynum_lt (Int lhs) (Int (rhs con)))
    || (String.eqb (con_sense con) "=" && pynum_ne (Int lhs) (Int (rhs con)))
    = false ↔ holds con lhs.
  Proof.
    unfold holds, pynum_gt, pynum_lt, pynum_ne.
    destruct (String.eqb_spec (con_sense con) "<=") as [E1|N1];
    destruct (String.eqb_spec (con_sense con) ">=") as [E2|N2];
    destruct (String.eqb_spec (con_sense con) "=") as [E3|N3];
    try congruence;
    destruct (Z.ltb_spec (rhs con) lhs), (Z.ltb_spec lhs (rhs con)),
      (Z.eqb_spec lhs (rhs con)); simpl;
    (split;
     [ intros ?; try done; repeat split; intros; (done || lia)
     | intros (H1 & H2 & H3); try done; exfalso;
       try specialize (H1 E1); try specialize (H2 E2); try specialize (H3 E3);
       lia ]).
  Qed.

  (** On a complete assignment [_feasible] returns a boolean, [True] exactly
      when every constraint holds under its sense. *)
Lemma feasible_complete (trial : gmap string pynum)
      (cons : list constraint) (vs : list string) :
    complete trial vs →
    ∃ b : bool, _feasible trial cons vs = Ok b ∧
                (b = true ↔ satisfies cons trial vs).
  Proof.
    intros C. unfold satisfies.
    induction cons as [|con cons (b & Hb & IH)]; simpl.
    - exists true. split; [done|]. split; [constructor | done].
    - rewrite (lhs_of_complete con trial vs C). simpl.
      destruct (_ || _) eqn:Et;
        pose proof (sense_test con (weighted_sum (coeff con) trial vs)) as T;
        unfold pynum_gt in T; simpl in T; rewrite Et in T.
      + exists false. split; [done|]. split; [done|].
        intros HF. apply Forall_cons in HF as [Hh _].
        apply T in Hh. done.
      + exists b. split; [done|]. rewrite IH, Forall_cons. tauto.
  Qed.

Lemma report_row_complete con d vs :
    complete d vs → ∃ r, report_row con d vs = Ok r ∧ row_for d vs con r.
  Proof.
    intros C. unfold report_row. rewrite (lhs_of_complete con d vs C). simpl.
    unfold row_for, slack_spec.
    destruct (String.eqb_spec (con_sense con) "<=") as [E1|N1].
    - simpl. eexists. split; [done|]. simpl. rewrite E1.
      repeat split; intros; first [done | f_equal; lia].
    - destruct (String.eqb_spec (con_sense con) ">=") as [E2|N2].
      + simpl. eexists. split; [done|]. simpl. rewrite E2.
        repeat split; intros; first [done | f_equal; lia].
      + simpl. eexists. split; [done|]. simpl. repeat split; intros; done.
  Qed.

  (** For a complete assignment the report has one row per constraint, in
      constraint order. *)
Lemma build_report_complete (lp : lp_t) (d : gmap string pynum) :
    complete d (var_names lp) →
    ∃ rows, build_report lp d = Ok rows ∧
            Forall2 (row_for d (var_names lp)) (constraints lp) rows.
  Proof.
    intros C. unfold build_report.
    induction (constraints lp) as [|con cons (rows & Hr & IH)]; simpl.
    - exists []. split; [done | constructor].
    - destruct (report_row_complete con d (var_names lp) C) as (r & Er & Hrow).
      rewrite Er. simpl. rewrite Hr. simpl.
      exists (r :: rows). split; [done | by constructor].
  Qed.
End FriendlyEval.

(** C2: on a complete assignment [_feasible] returns a boolean, and it is
    [True] exactly when every constraint holds under its sense for
    [lhs = Σ coeff.get(v, 0) * trial[v]] over the declared variables:
    [lhs <= rhs] for ["<="] (also the default), [lhs >= rhs] for [">="]
    and [lhs == rhs] for ["="]. *)
Theorem feasible_iff_satisfies (trial : gmap string pynum)
    (cons : list constraint) (vs : list string) :
  complete trial vs →
  ∃ b : bool, Friendly._feasible trial cons vs = Ok b ∧
              (b = true ↔
               ∀ con, con ∈ cons → holds con (weighted_sum (coeff con) trial vs)).
Proof.
  intros C.
  destruct (feasible_complete trial cons vs C) as (b & Hb & Hiff).
  exists b. split; [exact Hb|].
  unfold satisfies in Hiff. rewrite Forall_forall in Hiff. exact Hiff.
Qed.

(** C6: for a complete assignment the report has one row per constraint,
    in constraint order; the row shows the recomputed [lhs] and the slack
    [rhs - lhs] for ["<="], [lhs - rhs] for [">="] and [0] for ["="]. *)
Theorem report_rows_slack (lp : lp_t) (d : gmap string pynum) :
  complete d (var_names lp) →
  ∃ rows, Friendly.build_report lp d = Ok rows ∧
          length rows = length (constraints lp) ∧
          ∀ (i : nat) con, constraints lp !! i = Some con →
            ∃ r, rows !! i = Some r ∧ row_for d (var_names lp) con r.
Proof.
  intros C.
  destruct (build_report_complete lp d C) as (rows & Hrows & HF).
  exists rows. split; [exact Hrows|]. split.
  - symmetry. exact (Forall2_length _ _ _ HF).
  - intros i con Hi.
    destruct (Forall2_lookup_l _ _ _ i con HF Hi) as (r & Hr & Hrow).
    exists r. by split.
Qed.

(** ** The strict weighted sum [sum(c[v] * d[v] for v in vars_)] *)

Lemma py_sum_Ok_inv {X : Type} (f : X → result pynum) (vs : list X) (a x : pynum) :
  (∀ v, v ∈ vs → (∃ z, f v = Ok (Int z)) ∨ (∃ e, f v = Raise e)) →
  for_each (fun acc v => t ← f v; pynum_add acc t) vs a = Ok x →
  ∀ v, v ∈ vs → ∃ z, f v = Ok (Int z).
Proof.
  revert a. induction vs as [|v vs IH]; intros a Hf Hr w Hw.
  - by apply elem_of_nil in Hw.
  - simpl in Hr. apply bind_Ok in Hr as (a' & Ha' & Hr).
    apply elem_of_cons in Hw as [->|Hw].
    + destruct (Hf v) as [?|[e He]]; [by left | done |].
      rewrite He in Ha'. done.
    + eapply IH; [|exact Hr|exact Hw]. intros u Hu. apply Hf. by right.
Qed.

Lemma py_sum_raise {X : Type} (f : X → result pynum) (vs : list X) (a : pynum)
    (P : exn → Prop) :
  (∀ v, v ∈ vs → (∃ z, f v = Ok (Int z)) ∨ (∃ e, f v = Raise e ∧ P e)) →
  (∃ v, v ∈ vs ∧ ∃ e, f v = Raise e) →
  ∀ z, ∃ e, for_each (fun acc v => t ← f v; pynum_add acc t) vs (Int z) = Raise e ∧ P e.
Proof.
  induction vs as [|v vs IH]; intros Hf (w & Hw & e & He) z.
  - by apply elem_of_nil in Hw.
  - simpl. destruct (Hf v) as [[y Hy]|(e' & He' & HP)]; [by left| |].
    + rewrite Hy. simpl. apply IH.
      * intros u Hu. apply Hf. by right.
      * apply elem_of_cons in Hw as [->|Hw]; [congruence|].
        exists w. split; [done|]. by exists e.
    + rewrite He'. simpl. eauto.
Qed.

Lemma dot_term (c : gmap string Z) (t : gmap string pynum) (v : string) :
  (∃ z, t !! v = Some (Int z)) →
  match c !! v with
  | Some k => (k ← getitem c v; x ← getitem t v; pynum_mul (Int k) x)
              = Ok (Int (k * value t v))
  | None => (k ← getitem c v; x ← getitem t v; pynum_mul (Int k) x)
            = Raise (KeyError v)
  end.
Proof.
  intros [z Hz]. unfold getitem.
  destruct (c !! v) as [k|]; simpl; [|done].
  rewrite Hz. simpl. by rewrite (value_lookup _ _ _ Hz).
Qed.

Lemma dot_total (c : gmap string Z) (t : gmap string pynum) (vs : list string) :
  complete t vs →
  (∀ v, v ∈ vs → is_Some (c !! v)) →
  Core.dot c t vs = Ok (Int (weighted_sum c t vs)).
Proof.
  intros C Hc. unfold Core.dot, weighted_sum.
  apply py_sum_int. intros v Hv.
  pose proof (dot_term c t v (C v Hv)) as T.
  destruct (Hc v Hv) as [k Ek]. rewrite Ek in T. rewrite T. by rewrite Ek.
Qed.

Lemma dot_Ok_inv (c : gmap string Z) (t : gmap string pynum) (vs : list string)
    (x : pynum) :
  complete t vs →
  Core.dot c t vs = Ok x →
  (∀ v, v ∈ vs → is_Some (c !! v)) ∧ x = Int (weighted_sum c t vs).
Proof.
  intros C Hx.
  assert (∀ v, v ∈ vs → is_Some (c !! v)) as Hc.
  { intros v Hv.
    eapply py_sum_Ok_inv in Hx as [z Hz]; [| |exact Hv].
    - pose proof (dot_term c t v (C v Hv)) as T.
      destruct (c !! v); [eauto|]. rewrite T in Hz. done.
    - intros w Hw. pose proof (dot_term c t w (C w Hw)) as T.
      destruct (c !! w); rewrite T; eauto. }
  split; [done|]. rewrite (dot_total c t vs C Hc) in Hx. by injection Hx.
Qed.

(** On a complete assignment the strict sum returns an integer or raises
    [KeyError]. *)
Lemma dot_cases (c : gmap string Z) (t : gmap string pynum) (vs : list string) :
  complete t vs →
  Core.dot c t vs = Ok (Int (weighted_sum c t vs)) ∨
  ∃ k, Core.dot c t vs = Raise (KeyError k).
Proof.
  intros C.
  destruct (decide (Forall (fun v => is_Some (c !! v)) vs)) as [Hall|Hnot].
  - left. apply dot_total; [done|]. by apply Forall_forall.
  - right. apply not_Forall_Exists in Hnot; [|apply _].
    apply Exists_exists in Hnot as (w & Hw & Hnone).
    destruct (py_sum_raise
      (fun v => k ← getitem c v; x ← getitem t v; pynum_mul (Int k) x)
      vs (Int 0) (fun e => ∃ k, e = KeyError k)) with (z := 0) as (e & He & k & ->).
    + intros v Hv. pose proof (dot_term c t v (C v Hv)) as T. cbv beta.
      destruct (c !! v); rewrite T; [left; eauto | right; eauto].
    + exists w. split; [done|]. pose proof (dot_term c t w (C w Hw)) as T.
      cbv beta. simpl in Hnone. destruct (c !! w) as [k|].
      * exfalso. apply Hnone. by eexists.
      * eexists. exact T.
    + by exists k.
Qed.

(** ** The exhaustive search of [friendly.py] *)

Section FriendlySearch.
Import Friendly.
Variable lp : lp_t.
Local Abbreviation names := (var_names lp).

Lemma bind_Ok_id {A : Type} (m : result A) : m ≫= Ok = m.
  Proof. by destruct m. Qed.

Lemma recurse_enum (step : Z) (rest : list (string * Z)) :
    step ≠ 0 → ∀ trial st,
    recurse lp step rest trial st = visit_all lp (enum step rest trial) st.
  Proof.
    intros Hstep. unfold visit_all.
    induction rest as [|[v ub] rest IH]; intros trial st; simpl.
    - by rewrite bind_Ok_id.
    - unfold py_range. rewrite (proj2 (Z.eqb_neq _ _) Hstep). simpl.
      generalize (range_values (ub + 1) step). intros vals. revert st.
      induction vals as [|x vals IHv]; intros st; [done|].
      rewrite bind_cons, for_each_app. simpl. rewrite IH.
      destruct (for_each _ (enum step rest _) st) as [st'|e]; simpl; [apply IHv | done].
  Qed.

Lemma objective_of_total (t : gmap string pynum) :
    complete t names →
    (∀ v, v ∈ names → is_Some (obj_coeff (objective lp) !! v)) →
    objective_of lp t names = Ok (Int (objective_value lp t)).
  Proof. apply dot_total. Qed.

Lemma objective_of_Ok_inv (t : gmap string pynum) (x : pynum) :
    complete t names →
    objective_of lp t names = Ok x →
    (∀ v, v ∈ names → is_Some (obj_coeff (objective lp) !! v)) ∧
    x = Int (objective_value lp t).
  Proof. apply dot_Ok_inv. Qed.

Lemma better_init (obj : Z) :
    (if is_max lp then pynum_gt (Int obj) (init_obj lp)
     else pynum_lt (Int obj) (init_obj lp)) = true.
  Proof. unfold init_obj. by destruct (is_max lp). Qed.

Lemma better_int (obj cur : Z) :
    (if is_max lp then pynum_gt (Int obj) (Int cur)
     else pynum_lt (Int obj) (Int cur)) = true ↔ strictly_better lp obj cur.
  Proof.
    unfold strictly_better, pynum_gt. destruct (is_max lp); simpl; apply Z.ltb_lt.
  Qed.

Lemma strictly_better_trans x y z :
    strictly_better lp x y → ¬ strictly_better lp z y → strictly_better lp x z.
  Proof. unfold strictly_better. destruct (is_max lp); lia. Qed.

Lemma strictly_better_trans' x y z :
    strictly_better lp x y → strictly_better lp y z → strictly_better lp x z.
  Proof. unfold strictly_better. destruct (is_max lp); lia. Qed.

Lemma strictly_better_irrefl x y : x = y → ¬ strictly_better lp x y.
  Proof. unfold strictly_better. destruct (is_max lp); lia. Qed.

Lemma strictly_better_asym x y :
    strictly_better lp x y → ¬ strictly_better lp y x.
  Proof. unfold strictly_better. destruct (is_max lp); lia. Qed.

  (** The search invariant is kept by every visited trial. *)
Lemma visit_all_inv (l : list (gmap string pynum)) (st : search_state) :
    Forall (fun t => complete t names) l →
    visit_all lp l (init_state lp) = Ok st →
    search_inv lp l st.
  Proof.
    revert st. induction l as [|t' l IH] using rev_ind; intros st HC Hrun.
    - injection Hrun as <-. unfold search_inv. simpl. split; [done | constructor].
    - apply Forall_app in HC as [HC Ht']. rewrite Forall_singleton in Ht'.
      unfold visit_all in Hrun. rewrite for_each_app in Hrun.
      apply bind_Ok in Hrun as (st1 & Hrun1 & Hv).
      specialize (IH st1 HC Hrun1). simpl in Hv. rewrite bind_Ok_id in Hv.
      unfold visit in Hv.
      destruct (feasible_complete t' (constraints lp) names Ht')
        as (b & Hb & Hiff).
      rewrite Hb in Hv. simpl in Hv. fold (feasible_at lp t') in Hiff.
      destruct b; simpl in Hv.
      + assert (feasible_at lp t') as Hfeas by by apply Hiff.
        apply bind_Ok in Hv as (x & Hx & Hv).
        apply (objective_of_Ok_inv t' x Ht') in Hx as [_ ->].
        unfold search_inv in IH.
        destruct (best_soln st1) as [t|] eqn:Es.
        * destruct IH as (l1 & l2 & -> & Eo & Ft & H1 & H2).
          rewrite Eo in Hv.
          destruct (if is_max lp then _ else _) eqn:Eb; injection Hv as <-;
            unfold search_inv; simpl.
          -- apply better_int in Eb.
             exists (l1 ++ t :: l2), []. split_and!; [done|done|done| |constructor].
             apply Forall_app. split; [|apply Forall_cons; split].
             ++ eapply Forall_impl; [exact H1|]. simpl. intros u Hu Fu.
                eapply strictly_better_trans'; [exact Eb | by apply Hu].
             ++ done.
             ++ eapply Forall_impl; [exact H2|]. simpl. intros u Hu Fu.
                eapply strictly_better_trans; [exact Eb | by apply Hu].
          -- exists l1, (l2 ++ [t']).
             rewrite <- app_assoc. split_and!; try done.
             apply Forall_app. split; [done|]. apply Forall_singleton.
             intros _ Hsb. apply better_int in Hsb. congruence.
        * destruct IH as [Eo Hnone]. rewrite Eo, better_init in Hv.
          injection Hv as <-. unfold search_inv. simpl.
          exists l, []. split_and!; [done|done|done| |constructor].
          eapply Forall_impl; [exact Hnone|]. simpl. tauto.
      + injection Hv as <-.
        assert (¬ feasible_at lp t') as Hinf by (rewrite <- Hiff; done).
        unfold search_inv in *. destruct (best_soln st1) as [t|].
        * destruct IH as (l1 & l2 & -> & Eo & Ft & H1 & H2).
          exists l1, (l2 ++ [t']). rewrite <- app_assoc. split_and!; try done.
          apply Forall_app. split; [done|]. apply Forall_singleton. tauto.
        * destruct IH as [Eo Hnone]. split; [done|].
          apply Forall_app. split; [done|]. by apply Forall_singleton.
  Qed.

Lemma visit_all_cons t l (st : search_state) :
    visit_all lp (t :: l) st = visit lp t st ≫= visit_all lp l.
  Proof. done. Qed.

Lemma visit_total (t : gmap string pynum) (st : search_state) :
    (∀ v, v ∈ names → is_Some (obj_coeff (objective lp) !! v)) →
    complete t names → ∃ st', visit lp t st = Ok st'.
  Proof.
    intros Hc Ht. unfold visit.
    destruct (feasible_complete t (constraints lp) names Ht) as (b & -> & _).
    simpl. destruct b; simpl; [|eauto].
    rewrite (objective_of_total t Ht Hc). simpl.
    destruct (if is_max lp then _ else _); eauto.
  Qed.

Lemma visit_infeasible (t : gmap string pynum) (st : search_state) :
    complete t names → ¬ feasible_at lp t → visit lp t st = Ok st.
  Proof.
    intros Ht Hinf. unfold visit.
    destruct (feasible_complete t (constraints lp) names Ht) as (b & -> & Hiff).
    simpl. destruct b; simpl; [|done].
    exfalso. apply Hinf. by apply Hiff.
  Qed.

  (** With a coefficient for every variable, no visit raises. *)
Lemma visit_all_total (l : list (gmap string pynum)) (st : search_state) :
    (∀ v, v ∈ names → is_Some (obj_coeff (objective lp) !! v)) →
    Forall (fun t => complete t names) l →
    ∃ st', visit_all lp l st = Ok st'.
  Proof.
    intros Hc. revert st.
    induction l as [|t l IH]; intros st HC; [by exists st|].
    apply Forall_cons in HC as [Ht HC]. rewrite visit_all_cons.
    destruct (visit_total t st Hc Ht) as [st1 ->]. simpl. by apply IH.
  Qed.

  (** Without a feasible trial the state never changes, whatever the
      objective mapping holds. *)
Lemma visit_all_infeasible (l : list (gmap string pynum)) (st : search_state) :
    Forall (fun t => complete t names ∧ ¬ feasible_at lp t) l →
    visit_all lp l st = Ok st.
  Proof.
    induction l as [|t l IH]; intros HC; [done|].
    apply Forall_cons in HC as [[Ht Hinf] HC]. rewrite visit_all_cons.
    rewrite (visit_infeasible t st Ht Hinf). simpl. by apply IH.
  Qed.
End FriendlySearch.

(** ** The grid and the enumeration order *)

Lemma elem_of_range_values (stop step x : Z) :
  0 < step →
  x ∈ range_values stop step ↔ ∃ k : Z, 0 ≤ k ∧ x = k * step ∧ k * step < stop.
Proof.
  intros Hs. unfold range_values, range_len.
  rewrite (proj2 (Z.ltb_lt 0 step) Hs).
  set (q := (stop + step - 1) `div` step).
  assert (∀ k : Z, k < q ↔ k * step < stop) as Hq.
  { intros k. unfold q. split; intros H.
    - assert (step * (k + 1) ≤ stop + step - 1); [|lia].
      etrans; [|apply (Z.mul_div_le (stop + step - 1) step Hs)].
      apply Z.mul_le_mono_nonneg_l; lia.
    - assert (k + 1 ≤ (stop + step - 1) `div` step); [|lia].
      apply Z.div_le_lower_bound; lia. }
  rewrite list_elem_of_fmap. split.
  - intros (k & -> & Hk). apply elem_of_seq in Hk.
    exists (Z.of_nat k). split_and!; [lia|done|]. apply Hq. lia.
  - intros (k & Hk0 & -> & Hk). exists (Z.to_nat k).
    split; [by rewrite Z2Nat.id|]. apply elem_of_seq. apply Hq in Hk. lia.
Qed.

Lemma seq_sorted (j n : nat) : StronglySorted Nat.lt (seq j n).
Proof.
  revert j. induction n as [|n IH]; intros j; simpl; constructor; [apply IH|].
  apply Forall_forall. intros k Hk. apply elem_of_seq in Hk. lia.
Qed.

Lemma range_values_sorted (stop step : Z) :
  0 < step → StronglySorted Z.lt (range_values stop step).
Proof.
  intros Hs. unfold range_values.
  eapply StronglySorted_fmap; [|apply seq_sorted].
  intros a b Hab. simpl. nia.
Qed.

Lemma StronglySorted_bind {A B : Type} (R' : relation A) (R : relation B)
    (f : A → list B) (l : list A) :
  StronglySorted R' l →
  (∀ x, x ∈ l → StronglySorted R (f x)) →
  (∀ x y a b, x ∈ l → y ∈ l → R' x y → a ∈ f x → b ∈ f y → R a b) →
  StronglySorted R (l ≫= f).
Proof.
  induction 1 as [|x l Hl IH Hx]; intros Hblock Hacross.
  - constructor.
  - rewrite bind_cons. apply StronglySorted_app_2.
    + intros a b Ha Hb. apply list_elem_of_bind in Hb as (y & Hb & Hy).
      apply (Hacross x y); [by left | by right | | done | done].
      rewrite Forall_forall in Hx. by apply Hx.
    + apply Hblock. by left.
    + apply IH.
      * intros y Hy. apply Hblock. by right.
      * intros y z a b Hy Hz. apply Hacross; by right.
Qed.

Lemma StronglySorted_impl_elem {A : Type} (R1 R2 : relation A) (l : list A) :
  (∀ a b, a ∈ l → b ∈ l → R1 a b → R2 a b) →
  StronglySorted R1 l → StronglySorted R2 l.
Proof.
  intros Himp Hs. induction Hs as [|x l Hl IH Hx].
  - constructor.
  - constructor.
    + apply IH. intros a b Ha Hb. apply Himp; by right.
    + rewrite Forall_forall in *. intros y Hy.
      apply Himp; [by left | by right | by apply Hx].
Qed.

Section Enumeration.
Variable step : Z.
Hypothesis step_pos : 0 < step.

Lemma enum_outside rest trial t w :
    t ∈ enum step rest trial → w ∉ rest.*1 → t !! w = trial !! w.
  Proof.
    revert trial. induction rest as [|[v ub] rest IH]; intros trial Ht Hw.
    - simpl in Ht. apply list_elem_of_singleton in Ht. by subst.
    - simpl in Ht. apply list_elem_of_bind in Ht as (x & Ht & _).
      rewrite fmap_cons in Hw. apply not_elem_of_cons in Hw as [Hwv Hw].
      rewrite (IH _ Ht Hw). by rewrite lookup_insert_ne.
  Qed.

Lemma enum_in_grid rest trial t :
    NoDup rest.*1 → t ∈ enum step rest trial → in_grid rest step t.
  Proof.
    revert trial. induction rest as [|[v ub] rest IH]; intros trial Hnd Ht.
    - intros w ub Hw. by apply elem_of_nil in Hw.
    - rewrite fmap_cons in Hnd. apply NoDup_cons in Hnd as [Hv Hnd]. simpl in Hv.
      simpl in Ht. apply list_elem_of_bind in Ht as (x & Ht & Hx).
      apply (elem_of_range_values _ _ _ step_pos) in Hx as (k & Hk0 & -> & Hk).
      intros w ub' Hw. apply elem_of_cons in Hw as [[= -> ->]|Hw].
      + exists k. split_and!; [done|lia|].
        rewrite (enum_outside _ _ _ _ Ht Hv). simpl. by rewrite lookup_insert_eq.
      + by apply (IH _ Hnd Ht).
  Qed.

Lemma enum_covers rest trial d :
    in_grid rest step d → ∃ t, t ∈ enum step rest trial ∧ same_on rest.*1 t d.
  Proof.
    revert trial. induction rest as [|[v ub] rest IH]; intros trial Hd.
    - exists trial. split; [by left|]. intros w Hw. by apply elem_of_nil in Hw.
    - destruct (Hd v ub) as (k & Hk0 & Hk & Hdv); [by left|].
      destruct (IH (<[v := Int (k * step)]> trial)) as (t & Ht & Hsame).
      { intros w ub' Hw. apply Hd. by right. }
      exists t. split.
      + simpl. apply list_elem_of_bind. exists (k * step). split; [done|].
        apply (elem_of_range_values _ _ _ step_pos). exists k. split_and!; [done|done|lia].
      + intros w Hw. rewrite fmap_cons in Hw.
        destruct (decide (w ∈ rest.*1)) as [Hin|Hout]; [by apply Hsame|].
        apply elem_of_cons in Hw as [->|Hw]; [|done].
        rewrite (enum_outside _ _ _ _ Ht Hout). simpl.
        by rewrite lookup_insert_eq, Hdv.
  Qed.

Lemma lex_lt_cons v vs d d' :
    value d v = value d' v → lex_lt vs d d' → lex_lt (v :: vs) d d'.
  Proof.
    intros Hv (vs1 & w & vs2 & -> & Hpre & Hlt).
    exists (v :: vs1), w, vs2. split_and!; [done| |done].
    intros u Hu. apply elem_of_cons in Hu as [->|Hu]; [done | by apply Hpre].
  Qed.

Lemma enum_sorted rest trial :
    NoDup rest.*1 → StronglySorted (lex_lt rest.*1) (enum step rest trial).
  Proof.
    revert trial. induction rest as [|[v ub] rest IH]; intros trial Hnd.
    - simpl. repeat constructor.
    - rewrite fmap_cons in *. apply NoDup_cons in Hnd as [Hv Hnd]. simpl in *.
      assert (∀ x t, t ∈ enum step rest (<[v := Int x]> trial) → value t v = x) as Hval.
      { intros x t Ht. unfold value.
        rewrite (enum_outside _ _ _ _ Ht Hv). by rewrite lookup_insert_eq. }
      apply (StronglySorted_bind Z.lt); [by apply range_values_sorted| |].
      + intros x _. eapply StronglySorted_impl_elem; [|by apply IH].
        intros a b Ha Hb. apply lex_lt_cons.
        by rewrite (Hval x a Ha), (Hval x b Hb).
      + intros x y a b _ _ Hxy Ha Hb. exists [], v, rest.*1.
        split_and!; [done| |].
        * intros w Hw. by apply elem_of_nil in Hw.
        * by rewrite (Hval x a Ha), (Hval y b Hb).
  Qed.

Lemma enum_complete rest trial t :
    NoDup rest.*1 → t ∈ enum step rest trial → complete t rest.*1.
  Proof.
    intros Hnd Ht w Hw. apply list_elem_of_fmap in Hw as ([w' ub] & -> & Hw).
    destruct (enum_in_grid _ _ _ Hnd Ht w' ub Hw) as (k & _ & _ & Hk). eauto.
  Qed.
End Enumeration.

(** Feasibility, the objective, the grid and the order read a dict only at
    the declared variables. *)
Lemma feasible_at_ext lp d d' :
  same_on (var_names lp) d d' → feasible_at lp d → feasible_at lp d'.
Proof.
  intros E F. unfold feasible_at, satisfies in *.
  eapply Forall_impl; [exact F|]. intros con. simpl.
  by rewrite (weighted_sum_ext (coeff con) d d' (var_names lp) E).
Qed.

Lemma objective_value_ext lp d d' :
  same_on (var_names lp) d d' → objective_value lp d = objective_value lp d'.
Proof. intros E. by apply weighted_sum_ext. Qed.

Lemma in_grid_ext vbs step d d' :
  same_on vbs.*1 d d' → in_grid vbs step d → in_grid vbs step d'.
Proof.
  intros E G v ub Hv. destruct (G v ub Hv) as (k & ? & ? & Hk).
  exists k. split_and!; [done|done|]. rewrite <- (E v); [done|].
  apply list_elem_of_fmap. by exists (v, ub).
Qed.

Lemma same_on_sym vs d d' : same_on vs d d' → same_on vs d' d.
Proof. intros E v Hv. symmetry. by apply E. Qed.

Lemma same_on_value vs d d' v : same_on vs d d' → v ∈ vs → value d v = value d' v.
Proof. intros E Hv. unfold value. by rewrite (E v Hv). Qed.

Lemma lex_lt_ext vs d d' e e' :
  same_on vs d e → same_on vs d' e' → lex_lt vs d d' → lex_lt vs e e'.
Proof.
  intros E E' (vs1 & v & vs2 & -> & Hpre & Hlt).
  exists vs1, v, vs2. split_and!; [done| |].
  - intros w Hw.
    rewrite <- (same_on_value _ _ _ w E), <- (same_on_value _ _ _ w E');
      [by apply Hpre | |]; apply elem_of_app; by left.
  - rewrite <- (same_on_value _ _ _ v E), <- (same_on_value _ _ _ v E');
      [done | |]; apply elem_of_app; right; by left.
Qed.

(** ** [brute_force_lp_friendly]: what a run returns *)

Section FriendlyRun.
Import Friendly.
Variable lp : lp_t.
Variable step : Z.
Hypothesis step_pos : 0 < step.
Hypothesis names_nodup : NoDup (var_names lp).
Local Abbreviation names := (var_names lp).
Local Abbreviation trials := (enum step (vars lp) ∅).

Lemma friendly_unfold :
    brute_force_lp_friendly lp step =
    st ← visit_all lp trials (init_state lp);
    match best_soln st with
    | None => Raise no_feasible
    | Some soln =>
        report ← build_report lp (<["objective" := best_obj st]> soln);
        Ok (<["objective" := best_obj st]> soln, report)
    end.
  Proof.
    unfold brute_force_lp_friendly. rewrite recurse_enum by lia. done.
  Qed.

Lemma trials_complete : Forall (fun t => complete t names) trials.
  Proof.
    apply Forall_forall. intros t Ht. by apply (enum_complete step step_pos (vars lp) ∅).
  Qed.

Lemma merged_complete (t : gmap string pynum) (obj : Z) :
    complete t names → complete (<["objective" := Int obj]> t) names.
  Proof.
    intros C v Hv. destruct (decide (v = "objective")) as [->|Hne].
    - exists obj. by rewrite lookup_insert_eq.
    - rewrite lookup_insert_ne by done. by apply C.
  Qed.

  (** A successful run returns the first of the best feasible trials,
      merged with its objective value, and the report of the merged dict. *)
Lemma friendly_Ok_inv best report :
    brute_force_lp_friendly lp step = Ok (best, report) →
    ∃ t l1 l2,
      trials = l1 ++ t :: l2 ∧
      best = <["objective" := Int (objective_value lp t)]> t ∧
      feasible_at lp t ∧
      Forall (fun u => feasible_at lp u →
                strictly_better lp (objective_value lp t) (objective_value lp u)) l1 ∧
      Forall (fun u => feasible_at lp u →
                ¬ strictly_better lp (objective_value lp u) (objective_value lp t)) l2 ∧
      Forall2 (row_for best names) (constraints lp) report.
  Proof.
    rewrite friendly_unfold. intros Hrun.
    apply bind_Ok in Hrun as (st & Hst & Hrun).
    pose proof (visit_all_inv lp _ _ trials_complete Hst) as Hinv.
    unfold search_inv in Hinv. destruct (best_soln st) as [t|]; [|done].
    destruct Hinv as (l1 & l2 & El & Eo & Ft & H1 & H2). rewrite Eo in Hrun.
    apply bind_Ok in Hrun as (rows & Hrows & [= <- <-]).
    exists t, l1, l2. split_and!; try done.
    assert (complete t names) as Ct.
    { pose proof trials_complete as TC. rewrite El in TC.
      apply Forall_app in TC as [_ TC]. by apply Forall_cons in TC as [? _]. }
    destruct (build_report_complete lp _ (merged_complete t (objective_value lp t) Ct))
      as (rows' & Hrows' & HF).
    rewrite Hrows in Hrows'. by injection Hrows' as <-.
  Qed.

  (** The returned trial is on the grid, and no feasible grid point is
      strictly better. *)
Lemma friendly_best best report :
    brute_force_lp_friendly lp step = Ok (best, report) →
    ∃ t, best = <["objective" := Int (objective_value lp t)]> t ∧
         in_grid (vars lp) step t ∧ feasible_at lp t ∧
         (∀ d, in_grid (vars lp) step d → feasible_at lp d →
               ¬ strictly_better lp (objective_value lp d) (objective_value lp t)) ∧
         (∀ d, in_grid (vars lp) step d → feasible_at lp d →
               objective_value lp d = objective_value lp t →
               same_on names t d ∨ lex_lt names t d).
  Proof.
    intros Hrun.
    destruct (friendly_Ok_inv best report Hrun)
      as (t & l1 & l2 & El & Eb & Ft & H1 & H2 & _).
    assert (t ∈ trials) as Ht.
    { rewrite El. apply elem_of_app. right. by left. }
    exists t. split_and!; [done| |done| |].
    - by apply (enum_in_grid step step_pos (vars lp) ∅).
    - intros d Gd Fd.
      destruct (enum_covers step step_pos (vars lp) ∅ d Gd) as (u & Hu & Eu).
      rewrite <- (objective_value_ext lp u d Eu).
      apply (feasible_at_ext lp d u (same_on_sym _ _ _ Eu)) in Fd.
      rewrite El in Hu. rewrite Forall_forall in H1, H2.
      apply elem_of_app in Hu as [Hu|Hu].
      + apply strictly_better_asym. by apply H1.
      + apply elem_of_cons in Hu as [->|Hu].
        * by apply strictly_better_irrefl.
        * by apply H2.
    - intros d Gd Fd Eobj.
      destruct (enum_covers step step_pos (vars lp) ∅ d Gd) as (u & Hu & Eu).
      rewrite <- (objective_value_ext lp u d Eu) in Eobj.
      apply (feasible_at_ext lp d u (same_on_sym _ _ _ Eu)) in Fd.
      pose proof (enum_sorted step step_pos (vars lp) ∅ names_nodup) as Hs.
      rewrite El in Hu, Hs. rewrite Forall_forall in H1.
      apply elem_of_app in Hu as [Hu|Hu].
      + exfalso. eapply strictly_better_irrefl; [|by apply (H1 u)]. done.
      + apply elem_of_cons in Hu as [->|Hu]; [by left|].
        right. apply StronglySorted_app_1_r, StronglySorted_cons in Hs as [Hs _].
        rewrite Forall_forall in Hs.
        eapply lex_lt_ext; [| exact Eu | by apply Hs]. done.
  Qed.

  (** With a coefficient for every variable the searcher returns as soon
      as the grid holds a feasible point. *)
Lemma friendly_returns :
    (∀ v, v ∈ names → is_Some (obj_coeff (objective lp) !! v)) →
    (∃ d, in_grid (vars lp) step d ∧ feasible_at lp d) →
    ∃ best report, brute_force_lp_friendly lp step = Ok (best, report).
  Proof.
    intros Hc (d & Gd & Fd). rewrite friendly_unfold.
    destruct (visit_all_total lp trials (init_state lp) Hc trials_complete)
      as [st Hst].
    rewrite Hst. simpl.
    pose proof (visit_all_inv lp _ _ trials_complete Hst) as Hinv.
    unfold search_inv in Hinv. destruct (best_soln st) as [t|].
    - destruct Hinv as (l1 & l2 & El & Eo & _). rewrite Eo.
      assert (complete t names) as Ct.
      { pose proof trials_complete as TC. rewrite El in TC.
        apply Forall_app in TC as [_ TC]. by apply Forall_cons in TC as [? _]. }
      destruct (build_report_complete lp _ (merged_complete t (objective_value lp t) Ct))
        as (rows & -> & _).
      simpl. eauto.
    - destruct Hinv as [_ Hnone]. exfalso.
      destruct (enum_covers step step_pos (vars lp) ∅ d Gd) as (u & Hu & Eu).
      rewrite Forall_forall in Hnone. apply (Hnone u Hu).
      by apply (feasible_at_ext lp d u (same_on_sym _ _ _ Eu)).
  Qed.

  (** Without a feasible grid point the searcher raises
      [ValueError("No feasible solution found.")]. *)
Lemma friendly_infeasible :
    (∀ d, in_grid (vars lp) step d → ¬ feasible_at lp d) →
    brute_force_lp_friendly lp step = Raise no_feasible.
  Proof.
    intros Hnone. rewrite friendly_unfold.
    rewrite (visit_all_infeasible lp trials (init_state lp)); [done|].
    apply Forall_forall. intros t Ht. split.
    - by apply (enum_complete step step_pos (vars lp) ∅).
    - apply Hnone. by apply (enum_in_grid step step_pos (vars lp) ∅).
  Qed.
End FriendlyRun.

(** ** The returned dict read as an assignment *)

Lemma is_max_of_sense lp :
  (objective_sense lp = "max" → Friendly.is_max lp = true) ∧
  (objective_sense lp = "min" → Friendly.is_max lp = false).
Proof.
  unfold Friendly.is_max, objective_sense. split; intros ->; reflexivity.
Qed.

Lemma same_on_merged (vs : list string) (t : gmap string pynum) (x : pynum) :
  "objective" ∉ vs → same_on vs (<["objective" := x]> t) t.
Proof.
  intros Hno v Hv. apply lookup_insert_ne. intros <-. done.
Qed.

Lemma merged_optimum_on_grid (lp : lp_t) (step : Z)
    (best : gmap string pynum) (report : list Friendly.row) :
  0 < step →
  NoDup (var_names lp) →
  "objective" ∉ var_names lp →
  Friendly.brute_force_lp_friendly lp step = Ok (best, report) →
  optimum_on_grid lp step best.
Proof.
  intros Hstep Hnd Hno Hrun.
  destruct (friendly_best lp step Hstep Hnd best report Hrun)
    as (t & -> & Gt & Ft & Hopt & _).
  set (m := objective_value lp t).
  pose proof (same_on_merged (var_names lp) t (Int m) Hno) as E.
  pose proof (same_on_sym _ _ _ E) as E'.
  assert (objective_value lp (<["objective" := Int m]> t) = m) as Em
    by by rewrite (objective_value_ext lp _ t E).
  unfold optimum_on_grid. rewrite Em. split_and!.
  - by apply (in_grid_ext (vars lp) step t).
  - by apply (feasible_at_ext lp t).
  - by rewrite lookup_insert_eq.
  - intros Hs d Gd Fd. apply is_max_of_sense in Hs.
    specialize (Hopt d Gd Fd). unfold strictly_better in Hopt.
    rewrite Hs in Hopt. fold m in Hopt. lia.
  - intros Hs d Gd Fd. apply is_max_of_sense in Hs.
    specialize (Hopt d Gd Fd). unfold strictly_better in Hopt.
    rewrite Hs in Hopt. fold m in Hopt. lia.
Qed.

(** C1 (amended): when no variable is named ["objective"], whatever
    [brute_force_lp_friendly] returns for a positive step is a feasible grid
    assignment together with its objective value, and that value is the
    maximum (sense [max]) or minimum (sense [min]) of the objective over the
    feasible grid assignments; and the searcher does return when every
    variable has an objective coefficient and some grid point is feasible. *)
Theorem friendly_returns_grid_optimum (lp : lp_t) (step : Z) :
  0 < step →
  NoDup (var_names lp) →
  "objective" ∉ var_names lp →
  (∀ best report,
     Friendly.brute_force_lp_friendly lp step = Ok (best, report) →
     optimum_on_grid lp step best) ∧
  ((∀ v, v ∈ var_names lp → is_Some (obj_coeff (objective lp) !! v)) →
   (∃ d, in_grid (vars lp) step d ∧ feasible_at lp d) →
   ∃ best report, Friendly.brute_force_lp_friendly lp step = Ok (best, report)).
Proof.
  intros Hstep Hnd Hno. split; [|by apply friendly_returns].
  intros best report. by apply merged_optimum_on_grid.
Qed.


(** *** Concrete runs *)

Lemma in_grid_singleton (v : string) (ub step k : Z) (d : gmap string pynum) :
  0 ≤ k → k * step ≤ ub → d !! v = Some (Int (k * step)) →
  in_grid [(v, ub)] step d.
Proof.
  intros ? ? ? w ub' Hw. apply list_elem_of_singleton in Hw as [= -> ->]. eauto.
Qed.

Lemma in_grid_cons (v : string) (ub step k : Z) vbs (d : gmap string pynum) :
  0 ≤ k → k * step ≤ ub → d !! v = Some (Int (k * step)) →
  in_grid vbs step d → in_grid ((v, ub) :: vbs) step d.
Proof.
  intros ? ? ? G w ub' Hw. apply elem_of_cons in Hw as [[= -> ->]|Hw]; eauto.
Qed.

Lemma in_grid_nil step d : in_grid [] step d.
Proof. intros w ub Hw. by apply elem_of_nil in Hw. Qed.

(** C1, as stated, fails when a variable is named ["objective"]: for
    [max 2 * objective] with bound 1 the searcher returns the dict
    [{"objective": 2}], whose entry for the variable lies outside the grid. *)
Lemma key_clash_breaks_optimum :
  0 < 1 ∧ NoDup (var_names lp_key_clash) ∧
  ∃ best report,
    Friendly.brute_force_lp_friendly lp_key_clash 1 = Ok (best, report) ∧
    best = {[ "objective" := Int 2 ]} ∧
    ¬ optimum_on_grid lp_key_clash 1 best.
Proof.
  split; [lia|]. split; [apply NoDup_singleton|].
  exists {[ "objective" := Int 2 ]}, []. split; [by vm_compute|]. split; [done|].
  intros [G _]. destruct (G "objective" 1) as (k & Hk0 & Hk & Hv); [by left|].
  rewrite lookup_singleton_eq in Hv. injection Hv as Hv. lia.
Qed.


(** C3: with no feasible grid point the plain solver [brute_force_lp] ends
    in [KeyError("x")], raised while the report reads the sentinel record;
    the sense-aware searcher raises its [ValueError] on the same input. *)
Theorem plain_infeasible_lookup_error :
  (∀ d, in_grid (vars lp_infeasible) 1 d → ¬ feasible_at lp_infeasible d) ∧
  Core.brute_force_lp lp_infeasible 1 = Raise (KeyError "x") ∧
  Friendly.brute_force_lp_friendly lp_infeasible 1
  = Raise (ValueError "No feasible solution found.").
Proof.
  split; [|split; by vm_compute].
  intros d G F. destruct (G "x" 15) as (k & Hk0 & _ & Hv); [by left|].
  apply Forall_cons in F as [(Hle & _) _]. specialize (Hle eq_refl).
  unfold weighted_sum, Zsum, value in Hle. simpl in Hle.
  rewrite Hv in Hle. rewrite lookup_singleton_eq in Hle. simpl in Hle. lia.
Qed.

(** C8: the objective [lp["objective"]["coeff"][v] * trial[v]] needs a
    coefficient for every declared variable; for a mapping without [y] the
    evaluation, and with it both solvers, end in [KeyError("y")], while the
    constraint evaluation of the same file reads a missing coefficient as
    zero. *)
Theorem objective_missing_coeff_raises :
  let trial : gmap string pynum := {[ "x" := Int 1; "y" := Int 1 ]} in
  complete trial (var_names lp_missing_coeff) ∧
  Friendly.objective_of lp_missing_coeff trial (var_names lp_missing_coeff)
  = Raise (KeyError "y") ∧
  Friendly.lhs_of {| name := "partial"; coeff := {[ "x" := 1 ]};
                     sense := None; rhs := 1 |}
                  trial (var_names lp_missing_coeff) = Ok (Int 1) ∧
  Friendly.brute_force_lp_friendly lp_missing_coeff 1 = Raise (KeyError "y") ∧
  Core.brute_force_lp lp_missing_coeff 1 = Raise (KeyError "y").
Proof.
  split; [|split_and!; by vm_compute].
  intros v Hv. simpl in Hv.
  apply elem_of_cons in Hv as [->|Hv]; [by exists 1|].
  apply list_elem_of_singleton in Hv as ->. by exists 1.
Qed.

(** ** The plain solver of [core.py] *)

Lemma foldl_insert_outside (pairs : list (string * pynum)) (d0 : gmap string pynum)
    (w : string) :
  w ∉ pairs.*1 →
  foldl (fun d kv => <[kv.1 := kv.2]> d) d0 pairs !! w = d0 !! w.
Proof.
  revert d0. induction pairs as [|[k y] pairs IH]; intros d0 Hw; [done|].
  rewrite fmap_cons in Hw. apply not_elem_of_cons in Hw as [Hk Hw].
  simpl. rewrite IH by done. by rewrite lookup_insert_ne.
Qed.

Lemma foldl_insert_int (pairs : list (string * pynum)) (d0 : gmap string pynum)
    (w : string) :
  Forall (fun kv => ∃ z, kv.2 = Int z) pairs →
  w ∈ pairs.*1 →
  ∃ z, foldl (fun d kv => <[kv.1 := kv.2]> d) d0 pairs !! w = Some (Int z).
Proof.
  revert d0. induction pairs as [|[k y] pairs IH]; intros d0 Hint Hw.
  - by apply elem_of_nil in Hw.
  - apply Forall_cons in Hint as [[z Hz] Hint]. simpl in *. subst y.
    destruct (decide (w ∈ pairs.*1)) as [Hin|Hout]; [by apply IH|].
    apply elem_of_cons in Hw as [->|Hw]; [|done].
    exists z. rewrite foldl_insert_outside by done. by rewrite lookup_insert_eq.
Qed.

Lemma trial_of_complete (lp : lp_t) (combo : list Z) :
  length combo = length (var_names lp) → complete (trial_of lp combo) (var_names lp).
Proof.
  intros Hlen v Hv. unfold trial_of, Core.dict_of. apply foldl_insert_int.
  - apply Forall_forall. intros [k y] Hky. simpl.
    apply elem_of_zip_r in Hky. apply list_elem_of_fmap in Hky as (z & -> & _). eauto.
  - rewrite fst_zip; [done|]. rewrite length_fmap. lia.
Qed.

Section PlainTest.
Variable trial : gmap string pynum.
Variable vs : list string.
Hypothesis trial_complete : complete trial vs.

Lemma plain_feasible_total (cons : list constraint) :
    (∀ con v, con ∈ cons → v ∈ vs → is_Some (coeff con !! v)) →
    ∃ b : bool, Core.feasible trial cons vs = Ok b ∧
                (b = true ↔ le_satisfies cons trial vs).
  Proof.
    unfold le_satisfies. induction cons as [|con cons IH]; intros Hc; simpl.
    - exists true. split; [done|]. split; [constructor | done].
    - rewrite (dot_total (coeff con) trial vs trial_complete).
      2:{ intros v Hv. apply Hc; [by left | done]. }
      simpl. unfold pynum_gt. simpl.
      destruct (Z.ltb_spec (rhs con) (weighted_sum (coeff con) trial vs)) as [Hgt|Hle].
      + exists false. split; [done|]. split; [done|].
        intros HF. apply Forall_cons in HF as [Hh _]. lia.
      + destruct IH as (b & Hb & Hiff).
        { intros c v Hcin Hv. apply Hc; [by right | done]. }
        exists b. split; [done|]. rewrite Hiff, Forall_cons. tauto.
  Qed.

Lemma plain_feasible_cases (cons : list constraint) :
    (∃ b : bool, Core.feasible trial cons vs = Ok b) ∨
    (∃ k, Core.feasible trial cons vs = Raise (KeyError k)).
  Proof.
    induction cons as [|con cons IH]; simpl; [left; eauto|].
    destruct (dot_cases (coeff con) trial vs trial_complete) as [->|[k ->]];
      simpl; [|right; eauto].
    match goal with |- context [if ?c then _ else _] => destruct c end;
      [left; eauto | exact IH].
  Qed.
End PlainTest.

Lemma mapM_fmap {A B C : Type} (g : B → result C) (h : A → B) (l : list A) :
  mapM g (h <$> l) = mapM (g ∘ h) l.
Proof.
  induction l as [|x l IH]; [done|]. simpl.
  destruct (g (h x)); [|done]. simpl. unfold fmap in IH. by rewrite IH.
Qed.

Lemma for_each_ext {S X : Type} (f g : S → X → result S) (l : list X) (st : S) :
  (∀ s x, f s x = g s x) → for_each f l st = for_each g l st.
Proof.
  intros E. revert st. induction l as [|x l IH]; intros st; simpl; [done|].
  rewrite E. destruct (g st x); simpl; [apply IH | done].
Qed.

Lemma feasible_with_senses f trial cons vs :
  Core.feasible trial
    ((fun con => {| name := name con; coeff := coeff con;
                    sense := f con; rhs := rhs con |}) <$> cons) vs
  = Core.feasible trial cons vs.
Proof.
  induction cons as [|con cons IH]; simpl; [done|].
  destruct (Core.dot (coeff con) trial vs); simpl; [|done].
  by match goal with |- context [if ?c then _ else _] => destruct c end.
Qed.



Lemma elem_of_product (pools : list (list Z)) (combo : list Z) :
  combo ∈ Core.product pools → Forall2 (fun x pool => x ∈ pool) combo pools.
Proof.
  revert combo. induction pools as [|pool pools IH]; intros combo Hc; simpl in Hc.
  - apply list_elem_of_singleton in Hc as ->. constructor.
  - apply list_elem_of_bind in Hc as (x & Hc & Hx).
    apply list_elem_of_fmap in Hc as (c' & -> & Hc').
    constructor; [done | by apply IH].
Qed.

Lemma py_range_Ok (stop step : Z) :
  step ≠ 0 → py_range stop step = Ok (range_values stop step).
Proof. intros Hstep. unfold py_range. by rewrite (proj2 (Z.eqb_neq _ _) Hstep). Qed.

Lemma pools_Ok (step : Z) (bs : list Z) :
  step ≠ 0 →
  mapM (fun ub => py_range (ub + 1) step) bs
  = Ok ((fun ub => range_values (ub + 1) step) <$> bs).
Proof.
  intros Hstep. induction bs as [|ub bs IH]; [done|].
  cbn [mapM]. rewrite IH, py_range_Ok by done. done.
Qed.

Section PlainSearch.
Variable step : Z.
Hypothesis step_pos : 0 < step.

Lemma foldl_zip_grid (vbs : list (string * Z)) (combo : list Z)
      (d0 : gmap string pynum) :
    NoDup vbs.*1 →
    Forall2 (fun x pool => x ∈ pool) combo (pools_of vbs step) →
    in_grid vbs step
      (foldl (fun d kv => <[kv.1 := kv.2]> d) d0 (zip vbs.*1 (Int <$> combo))).
  Proof.
    revert combo d0. induction vbs as [|[v ub] vbs IH]; intros combo d0 Hnd HF.
    - apply in_grid_nil.
    - unfold pools_of in HF. rewrite !fmap_cons in HF.
      apply Forall2_cons_inv_r in HF as (x & combo' & Hx & HF & ->).
      rewrite fmap_cons in Hnd. apply NoDup_cons in Hnd as [Hv Hnd]. simpl in *.
      apply (elem_of_range_values _ _ _ step_pos) in Hx as (k & Hk0 & -> & Hk).
      apply (in_grid_cons _ _ _ k); [done | lia | | by apply IH].
      rewrite foldl_insert_outside; [by rewrite lookup_insert_eq|].
      rewrite fst_zip; [done|].
      rewrite length_fmap, length_fmap. apply Forall2_length in HF.
      unfold pools_of in HF. rewrite length_fmap, length_fmap in HF. lia.
  Qed.

Lemma trial_of_in_grid (lp : lp_t) (combo : list Z) :
    NoDup (var_names lp) →
    combo ∈ Core.product (pools_of (vars lp) step) →
    in_grid (vars lp) step (trial_of lp combo) ∧
    complete (trial_of lp combo) (var_names lp).
  Proof.
    intros Hnd Hc. apply elem_of_product in Hc.
    split; [by apply foldl_zip_grid|].
    apply trial_of_complete. apply Forall2_length in Hc.
    unfold pools_of in Hc. rewrite !length_fmap in Hc.
    unfold var_names. by rewrite length_fmap.
  Qed.

Lemma try_combo_no_pass (lp : lp_t) (best : gmap string pynum) (combo : list Z) :
    complete (trial_of lp combo) (var_names lp) →
    ¬ plain_passes lp (trial_of lp combo) →
    Core.try_combo lp best combo = Ok best ∨
    ∃ k, Core.try_combo lp best combo = Raise (KeyError k).
  Proof.
    intros C Hno. unfold Core.try_combo. fold (trial_of lp combo).
    destruct (plain_feasible_cases _ _ C (constraints lp)) as [[b Hb]|[k Hk]].
    - rewrite Hb. simpl. destruct b; [done | by left].
    - rewrite Hk. simpl. right. eauto.
  Qed.

  (** While no trial passes the test, the best record stays as it is,
      unless a coefficient lookup fails. *)
Lemma search_without_pass (lp : lp_t) (combos : list (list Z))
      (best : gmap string pynum) :
    (∀ combo, combo ∈ combos →
       complete (trial_of lp combo) (var_names lp) ∧
       ¬ plain_passes lp (trial_of lp combo)) →
    for_each (Core.try_combo lp) combos best = Ok best ∨
    ∃ k, for_each (Core.try_combo lp) combos best = Raise (KeyError k).
  Proof.
    induction combos as [|combo combos IH]; intros Hall; [by left|].
    destruct (Hall combo) as [C Hno]; [by left|].
    cbn [for_each].
    destruct (try_combo_no_pass lp best combo C Hno) as [->|[k ->]].
    - simpl. apply IH. intros c Hc. apply Hall. by right.
    - simpl. right. eauto.
  Qed.

  (** The report cannot read a variable from the sentinel record. *)
Lemma dot_on_sentinel (c : gmap string Z) (v : string) (vs : list string) :
    v ≠ "objective" →
    Core.dot c {[ "objective" := NegInf ]} (v :: vs) = Raise (KeyError v).
  Proof.
    intros Hv. unfold Core.dot, py_sum. cbn [for_each]. unfold getitem.
    rewrite lookup_singleton_ne by done. by destruct (c !! v).
  Qed.

Lemma report_on_sentinel (con : constraint) (cons : list constraint)
      (v : string) (vs : list string) :
    v ≠ "objective" →
    mapM (fun c => Core.report_row c {[ "objective" := NegInf ]} (v :: vs))
         (con :: cons)
    = Raise (KeyError v).
  Proof.
    intros Hv. cbn [mapM]. unfold Core.report_row.
    by rewrite (dot_on_sentinel (coeff con)).
  Qed.
End PlainSearch.

(** C10 (amended): when no variable is named ["objective"], a problem with
    at least one variable and one constraint in which no grid assignment
    passes the plain solver's test makes [brute_force_lp] end in a
    [KeyError] instead of returning the sentinel record. *)
Theorem plain_no_pass_raises (lp : lp_t) (step : Z) :
  0 < step →
  NoDup (var_names lp) →
  "objective" ∉ var_names lp →
  vars lp ≠ [] →
  constraints lp ≠ [] →
  (∀ d, in_grid (vars lp) step d → ¬ plain_passes lp d) →
  ∃ k, Core.brute_force_lp lp step = Raise (KeyError k).
Proof.
  intros Hstep Hnd Hno Hvars Hcons Hnone.
  unfold Core.brute_force_lp. unfold bounds.
  rewrite (pools_Ok step (vars lp).*2) by lia. simpl.
  fold (pools_of (vars lp) step).
  destruct (search_without_pass lp (Core.product (pools_of (vars lp) step))
              {[ "objective" := NegInf ]}) as [Hs|[k Hs]].
  - intros combo Hc.
    destruct (trial_of_in_grid step Hstep lp combo Hnd Hc) as [G C].
    split; [done | by apply Hnone].
  - rewrite Hs. simpl.
    destruct (vars lp) as [|[v ub] vbs] eqn:Ev; [done|].
    destruct (constraints lp) as [|con cons]; [done|].
    unfold var_names in *. rewrite Ev in *. rewrite fmap_cons in *. simpl in *.
    assert (v ≠ "objective") as Hne by (intros ->; apply Hno; by left).
    pose proof (report_on_sentinel con cons v vbs.*1 Hne) as R.
    cbn [mapM] in R. exists v. by rewrite R.
  - rewrite Hs. simpl. eauto.
Qed.

(** C10, as stated, fails when the only variable is named ["objective"]:
    the report then finds the sentinel's entry and [brute_force_lp] returns
    the sentinel record [{"objective": -inf}] with a report row. *)
Lemma sentinel_is_returned :
  vars lp_sentinel ≠ [] ∧ constraints lp_sentinel ≠ [] ∧
  (∀ d, in_grid (vars lp_sentinel) 1 d → ¬ plain_passes lp_sentinel d) ∧
  Core.brute_force_lp lp_sentinel 1
  = Ok ({[ "objective" := NegInf ]},
        [ {| Core.row_constraint := "floor"; Core.row_lhs := NegInf;
             Core.row_rhs := -1 |} ]).
Proof.
  split_and!; [done | done | | by vm_compute].
  intros d G Hpass.
  destruct (G "objective" 1) as (k & Hk0 & _ & Hv); [by left|].
  assert (complete d (var_names lp_sentinel)) as C.
  { intros w Hw. apply list_elem_of_singleton in Hw as ->. eauto. }
  destruct (plain_feasible_total d _ C (constraints lp_sentinel)) as (b & Hb & Hiff).
  { intros con w Hcon Hw. apply list_elem_of_singleton in Hcon as ->.
    apply list_elem_of_singleton in Hw as ->. by eexists. }
  unfold plain_passes in Hpass. rewrite Hb in Hpass. injection Hpass as ->.
  assert (le_satisfies (constraints lp_sentinel) d (var_names lp_sentinel)) as HF
    by by apply Hiff.
  apply Forall_cons in HF as [Hle _].
  unfold weighted_sum, Zsum, value in Hle. simpl in Hle.
  rewrite Hv in Hle. rewrite lookup_singleton_eq in Hle. simpl in Hle. lia.
Qed.

(** ** The sampler of [core.py] *)

Lemma desc_le_total (a b : pynum) : Core.desc_le a b = true ∨ Core.desc_le b a = true.
Proof.
  destruct a as [x| | |], b as [y| | |]; simpl; auto.
  destruct (Z.ltb_spec x y), (Z.ltb_spec y x); simpl; auto. lia.
Qed.

Lemma desc_le_trans (a b c : pynum) :
  Core.desc_le a b = true → Core.desc_le b c = true → Core.desc_le a c = true.
Proof.
  destruct a as [x| | |], b as [y| | |], c as [z| | |]; simpl; try done.
  rewrite !negb_true_iff, !Z.ltb_ge. lia.
Qed.

#[global] Instance row_before_total col : Total (Core.row_before col).
Proof. intros r1 r2. apply desc_le_total. Qed.

#[global] Instance row_before_trans col : Transitive (Core.row_before col).
Proof. intros r1 r2 r3. apply desc_le_trans. Qed.

Lemma sort_values_desc_Ok shuffle col df sorted :
  (∀ l, shuffle l ≡ₚ l) →
  Core.sort_values_desc shuffle col df = Ok sorted →
  sorted ≡ₚ df ∧ StronglySorted (Core.row_before col) sorted.
Proof.
  intros Hperm. unfold Core.sort_values_desc. destruct (decide _); [|done].
  intros [= <-]. split; [by rewrite merge_sort_Permutation|].
  apply StronglySorted_merge_sort; apply _.
Qed.

Lemma sort_values_desc_empty shuffle col :
  Core.sort_values_desc shuffle col [] = Raise (KeyError col).
Proof.
  unfold Core.sort_values_desc. destruct (decide _) as [Hin|]; [|done].
  unfold Core.columns in Hin. simpl in Hin. by apply elem_of_empty in Hin.
Qed.

Lemma columns_cons r df : Core.columns (r :: df) = dom r ∪ Core.columns df.
Proof. done. Qed.

Lemma sort_values_desc_total shuffle col df :
  Exists (fun r => is_Some (r !! col)) df →
  ∃ sorted, Core.sort_values_desc shuffle col df = Ok sorted.
Proof.
  intros Hex. unfold Core.sort_values_desc.
  destruct (decide _) as [|Hnot]; [eauto|]. exfalso. apply Hnot.
  induction Hex as [r df Hr|r df _ IH]; rewrite columns_cons, elem_of_union.
  - left. by apply elem_of_dom.
  - right. apply IH. intros Hin. apply Hnot. rewrite columns_cons. set_solver.
Qed.

(** *** 64-bit sums that do not wrap *)

Lemma wrap64_id (z : Z) : Z.abs z ≤ 2 ^ 63 - 1 → Core.wrap64 z = z.
Proof.
  intros Hz. unfold Core.wrap64.
  change (2 ^ 64) with 18446744073709551616.
  change (2 ^ 63) with 9223372036854775808 in *.
  rewrite Z.mod_small; lia.
Qed.

Lemma abs_bound_cons (c : gmap string Z) (v : string) (ub : Z) vbs :
  abs_bound c ((v, ub) :: vbs) = Z.abs (default 0 (c !! v)) * ub + abs_bound c vbs.
Proof. done. Qed.

Lemma within_bounds_tail (v : string) (ub : Z) vbs (t : gmap string pynum) :
  within_bounds ((v, ub) :: vbs) t → within_bounds vbs t.
Proof. intros W w ub' Hw. apply W. by right. Qed.

Lemma abs_bound_nonneg (c : gmap string Z) vbs (t : gmap string pynum) :
  within_bounds vbs t → 0 ≤ abs_bound c vbs.
Proof.
  induction vbs as [|[v ub] vbs IH]; intros W; [done|].
  rewrite abs_bound_cons.
  destruct (W v ub) as (z & Hz & _); [by left|].
  specialize (IH (within_bounds_tail _ _ _ _ W)).
  pose proof (Z.abs_nonneg (default 0 (c !! v))). nia.
Qed.

Lemma product_in_bound (k z ub : Z) :
  0 ≤ z ≤ ub → Z.abs (k * z) ≤ Z.abs k * ub.
Proof.
  intros Hz. rewrite Z.abs_mul, (Z.abs_eq z) by lia.
  apply Z.mul_le_mono_nonneg_l; lia.
Qed.

Lemma dot64_step (c : gmap string Z) (t : gmap string pynum) (v : string)
    (a k z : Z) :
  c !! v = Some k → t !! v = Some (Int z) →
  (t' ← (k' ← getitem c v; x ← getitem t v; Core.int64_mul k' x);
   Core.int64_add (Int a) t')
  = if Core.fits_int64 k then Ok (Int (Core.wrap64 (a + Core.wrap64 (k * z))))
    else Raise Core.int_out_of_bounds.
Proof.
  intros Ek Ez. unfold getitem. rewrite Ek. simpl. rewrite Ez. simpl.
  by destruct (Core.fits_int64 k).
Qed.

Lemma dot64_acc_inv (c : gmap string Z) (t : gmap string pynum)
    (vbs : list (string * Z)) (a : Z) (x : pynum) :
  within_bounds vbs t →
  Z.abs a + abs_bound c vbs ≤ 2 ^ 63 - 1 →
  for_each (fun acc v =>
              t' ← (k ← getitem c v; x ← getitem t v; Core.int64_mul k x);
              Core.int64_add acc t')
           vbs.*1 (Int a) = Ok x →
  x = Int (a + weighted_sum c t vbs.*1) ∧ ∀ v, v ∈ vbs.*1 → is_Some (c !! v).
Proof.
  revert a. induction vbs as [|[v ub] vbs IH]; intros a W Hb Hrun.
  - injection Hrun as <-. split; [|intros v Hv; by apply elem_of_nil in Hv].
    unfold weighted_sum. simpl. f_equal. lia.
  - rewrite fmap_cons in *. cbn [fst] in *. cbn [for_each] in Hrun.
    apply bind_Ok in Hrun as (a' & Hstep & Hrun).
    destruct (W v ub) as (z & Hz & Htv); [by left|].
    rewrite abs_bound_cons in Hb.
    destruct (c !! v) as [k|] eqn:Ek.
    2:{ unfold getitem in Hstep. rewrite Ek in Hstep. done. }
    rewrite (dot64_step c t v a k z Ek Htv) in Hstep.
    destruct (Core.fits_int64 k); [|done]. injection Hstep as <-.
    pose proof (product_in_bound k z ub Hz) as Hkz.
    pose proof (abs_bound_nonneg c vbs t (within_bounds_tail _ _ _ _ W)) as Hrest.
    change (default 0 (Some k)) with k in Hb.
    rewrite (wrap64_id (k * z)) in Hrun by lia.
    rewrite (wrap64_id (a + k * z)) in Hrun by lia.
    assert (Z.abs (a + k * z) + abs_bound c vbs ≤ 2 ^ 63 - 1) as Hb' by lia.
    destruct (IH (a + k * z) (within_bounds_tail _ _ _ _ W) Hb' Hrun) as [-> Hall].
    split.
    + unfold weighted_sum. simpl. rewrite Ek. simpl.
      rewrite (value_lookup _ _ _ Htv). f_equal. unfold weighted_sum. lia.
    + intros w Hw. apply elem_of_cons in Hw as [->|Hw]; [by rewrite Ek | by apply Hall].
Qed.

Lemma dot64_acc_total (c : gmap string Z) (t : gmap string pynum)
    (vbs : list (string * Z)) (a : Z) :
  within_bounds vbs t →
  Z.abs a + abs_bound c vbs ≤ 2 ^ 63 - 1 →
  int64_coeffs c vbs.*1 →
  for_each (fun acc v =>
              t' ← (k ← getitem c v; x ← getitem t v; Core.int64_mul k x);
              Core.int64_add acc t')
           vbs.*1 (Int a)
  = Ok (Int (a + weighted_sum c t vbs.*1)).
Proof.
  revert a. induction vbs as [|[v ub] vbs IH]; intros a W Hb Hc.
  - unfold weighted_sum. simpl. do 2 f_equal. lia.
  - rewrite fmap_cons in *. cbn [fst] in *. cbn [for_each].
    destruct (W v ub) as (z & Hz & Htv); [by left|].
    destruct (Hc v) as (k & Ek & Hfit); [by left|].
    rewrite abs_bound_cons, Ek in Hb. change (default 0 (Some k)) with k in Hb.
    rewrite (dot64_step c t v a k z Ek Htv), Hfit.
    pose proof (product_in_bound k z ub Hz) as Hkz.
    pose proof (abs_bound_nonneg c vbs t (within_bounds_tail _ _ _ _ W)) as Hrest.
    rewrite (wrap64_id (k * z)) by lia.
    rewrite (wrap64_id (a + k * z)) by lia.
    cbn [mbind result_bind].
    rewrite IH; [| by eapply within_bounds_tail | lia |].
    + unfold weighted_sum. simpl. rewrite Ek. simpl.
      rewrite (value_lookup _ _ _ Htv). do 2 f_equal. lia.
    + intros w Hw. apply Hc. by right.
Qed.

Lemma dot64_Ok_inv (c : gmap string Z) (t : gmap string pynum)
    (vbs : list (string * Z)) (x : pynum) :
  within_bounds vbs t →
  abs_bound c vbs ≤ 2 ^ 63 - 1 →
  Core.dot64 c t vbs.*1 = Ok x →
  x = Int (weighted_sum c t vbs.*1).
Proof.
  intros W Hb Hrun. unfold Core.dot64 in Hrun.
  apply (dot64_acc_inv c t vbs 0 x W) in Hrun as [-> _]; [done | simpl; lia].
Qed.

Lemma dot64_total (c : gmap string Z) (t : gmap string pynum)
    (vbs : list (string * Z)) :
  within_bounds vbs t →
  abs_bound c vbs ≤ 2 ^ 63 - 1 →
  int64_coeffs c vbs.*1 →
  Core.dot64 c t vbs.*1 = Ok (Int (weighted_sum c t vbs.*1)).
Proof.
  intros W Hb Hc. unfold Core.dot64.
  rewrite (dot64_acc_total c t vbs 0 W); [done | simpl; lia | done].
Qed.

Lemma any_violated_false trial cons vbs :
  within_bounds vbs trial →
  (∀ con, con ∈ cons → abs_bound (coeff con) vbs ≤ 2 ^ 63 - 1) →
  Core.any_violated trial cons vbs.*1 = Ok false →
  le_satisfies cons trial vbs.*1.
Proof.
  intros W. unfold le_satisfies.
  induction cons as [|con cons IH]; simpl; intros Hb Hv; [constructor|].
  apply bind_Ok in Hv as (lhs & Hl & Hv).
  apply (dot64_Ok_inv _ _ _ _ W) in Hl as ->; [|apply Hb; by left].
  unfold pynum_gt in Hv. simpl in Hv.
  destruct (Z.ltb_spec (rhs con) (weighted_sum (coeff con) trial vbs.*1)); [done|].
  constructor; [lia|]. apply IH; [|done]. intros c Hc. apply Hb. by right.
Qed.

Lemma any_violated_total trial cons vbs :
  within_bounds vbs trial →
  (∀ con, con ∈ cons → abs_bound (coeff con) vbs ≤ 2 ^ 63 - 1) →
  (∀ con, con ∈ cons → int64_coeffs (coeff con) vbs.*1) →
  ∃ bad : bool, Core.any_violated trial cons vbs.*1 = Ok bad.
Proof.
  intros W. induction cons as [|con cons IH]; intros Hb Hc; simpl; [eauto|].
  rewrite (dot64_total (coeff con) trial vbs W); [|apply Hb; by left|apply Hc; by left].
  simpl. match goal with |- context [if ?c then _ else _] => destruct c end; [eauto|].
  apply IH; intros c Hcin; [apply Hb | apply Hc]; by right.
Qed.

Lemma within_bounds_complete vbs d : within_bounds vbs d → complete d vbs.*1.
Proof.
  intros W v Hv. apply list_elem_of_fmap in Hv as ([v' ub] & -> & Hv).
  destruct (W v' ub Hv) as (z & _ & Hz). eauto.
Qed.

Lemma within_bounds_ext vbs d d' :
  same_on vbs.*1 d d' → within_bounds vbs d → within_bounds vbs d'.
Proof.
  intros E W v ub Hv. destruct (W v ub Hv) as (z & Hz & Hd).
  exists z. split; [done|]. rewrite <- (E v); [done|].
  apply list_elem_of_fmap. by exists (v, ub).
Qed.

Lemma le_satisfies_ext cons vs d d' :
  same_on vs d d' → le_satisfies cons d vs → le_satisfies cons d' vs.
Proof.
  intros E F. unfold le_satisfies in *.
  eapply Forall_impl; [exact F|]. intros con. simpl.
  by rewrite (weighted_sum_ext (coeff con) d d' vs E).
Qed.

Section SamplerFacts.
Context {rng_t : Type}.
Variable default_rng : option Z → rng_t.
Variable integers : rng_t → Z → Z → Z * rng_t.
Variable shuffle : list (gmap string pynum) → list (gmap string pynum).
  (** [rng.integers(low, high)] draws from [[low, high)]. *)
Hypothesis integers_range :
    ∀ g low high, low < high → low ≤ (integers g low high).1 < high.
  (** The sort only rearranges the rows. *)
Hypothesis shuffle_perm : ∀ l, shuffle l ≡ₚ l.

Lemma draw_trial_spec vbs trial g t g' :
    NoDup vbs.*1 →
    Core.draw_trial integers vbs trial g = Ok (t, g') →
    within_bounds vbs t ∧ ∀ w, w ∉ vbs.*1 → t !! w = trial !! w.
Proof.
    revert trial g. induction vbs as [|[v ub] vbs IH]; intros trial g Hnd Hd.
    - injection Hd as <- <-. split; [|done]. intros w ub Hw. by apply elem_of_nil in Hw.
    - rewrite fmap_cons in Hnd. apply NoDup_cons in Hnd as [Hv Hnd].
      cbn [Core.draw_trial] in Hd. simpl in Hv.
      destruct (Z.ltb_spec (2 ^ 63 - 1) ub) as [|Hfit]; [done|].
      destruct (Z.ltb_spec ub 0) as [|Hub]; [done|].
      assert (0 < ub + 1) as Hpos by lia.
      pose proof (integers_range g 0 (ub + 1) Hpos) as Hx.
      destruct (integers g 0 (ub + 1)) as [x g1]. cbn [fst] in Hx.
      rewrite (wrap64_id x) in Hd by lia.
      destruct (IH _ _ Hnd Hd) as [W Hout]. split.
      + intros w ub' Hw. apply elem_of_cons in Hw as [[= -> ->]|Hw]; [|by apply W].
        exists x. split; [lia|]. rewrite Hout by done. by rewrite lookup_insert_eq.
      + intros w Hw. rewrite fmap_cons in Hw. apply not_elem_of_cons in Hw as [Hwv Hw].
        rewrite Hout by done. by rewrite lookup_insert_ne.
Qed.

Lemma draw_trial_total vbs trial g :
    (∀ v ub, (v, ub) ∈ vbs → 0 ≤ ub ≤ 2 ^ 63 - 1) →
    ∃ t g', Core.draw_trial integers vbs trial g = Ok (t, g').
Proof.
    revert trial g. induction vbs as [|[v ub] vbs IH]; intros trial g Hub.
    - simpl. eauto.
    - cbn [Core.draw_trial].
      assert (0 ≤ ub ≤ 2 ^ 63 - 1) as Hb by (apply (Hub v); by left).
      destruct (Z.ltb_spec (2 ^ 63 - 1) ub) as [|_]; [lia|].
      destruct (Z.ltb_spec ub 0) as [|_]; [lia|].
      destruct (integers g 0 (ub + 1)) as [x g1]. apply IH.
      intros w ub' Hw. apply (Hub w). by right.
Qed.

Section OneProblem.
Variable lp : lp_t.
Hypothesis names_nodup : NoDup (var_names lp).
Hypothesis no_clash : "objective" ∉ var_names lp.
Hypothesis safe : int64_safe lp.

    (** One iteration keeps the rows and may append one sampled row. *)
Lemma sample_once_spec rows g rows' g' :
      Core.sample_once integers lp (rows, g) = Ok (rows', g') →
      rows' = rows ∨ ∃ r, rows' = rows ++ [r] ∧ sampled_row lp r.
Proof.
      destruct safe as [Hso Hsc].
      unfold Core.sample_once. unfold var_names, bounds. rewrite zip_fst_snd.
      simpl. intros Hrun.
      apply bind_Ok in Hrun as ([t g1] & Hd & Hrun). simpl in Hrun.
      apply (draw_trial_spec _ _ _ _ _ names_nodup) in Hd as [W _].
      apply bind_Ok in Hrun as (bad & Hbad & Hrun).
      destruct bad; [injection Hrun as <- <-; by left|].
      apply bind_Ok in Hrun as (obj & Hobj & [= <- <-]).
      apply (dot64_Ok_inv _ _ _ _ W Hso) in Hobj as ->.
      apply (any_violated_false _ _ _ W Hsc) in Hbad.
      right. eexists. split; [done|]. fold (var_names lp) in *.
      pose proof (same_on_sym _ _ _
        (same_on_merged (var_names lp) t
           (Int (weighted_sum (obj_coeff (objective lp)) t (var_names lp))) no_clash)) as E.
      split_and!.
      - by apply (within_bounds_ext (vars lp) t).
      - by apply (le_satisfies_ext _ _ t).
      - rewrite lookup_insert_eq. do 2 f_equal. by apply weighted_sum_ext.
Qed.

Lemma sample_loop_spec (l : list Z) rows g rows' g' :
      for_each (fun acc _ => Core.sample_once integers lp acc) l (rows, g)
      = Ok (rows', g') →
      Forall (sampled_row lp) rows → Forall (sampled_row lp) rows'.
Proof.
      revert rows g. induction l as [|i l IH]; intros rows g Hrun HF.
      - by injection Hrun as <- <-.
      - cbn [for_each] in Hrun. apply bind_Ok in Hrun as ([rows1 g1] & H1 & Hrun).
        apply (IH _ _ Hrun).
        destruct (sample_once_spec _ _ _ _ H1) as [->|(r & -> & Hr)]; [done|].
        apply Forall_app. split; [done | by apply Forall_singleton].
Qed.

Lemma sampled_row_before r1 r2 :
      sampled_row lp r1 → sampled_row lp r2 →
      Core.row_before "objective" r1 r2 → objective_desc lp r1 r2.
Proof.
      intros (_ & _ & E1) (_ & _ & E2). unfold Core.row_before, Core.cell.
      rewrite E1, E2. simpl. unfold objective_desc.
      rewrite negb_true_iff, Z.ltb_ge. done.
Qed.

    (** What a successful call returns, in terms of the rows that the loop
        kept. *)
Lemma sample_lp_inv n seed rows :
      Core.sample_lp default_rng integers shuffle lp n seed = Ok rows →
      ∃ kept g' sorted,
        Core.sample_rows integers lp n (default_rng seed) = Ok (kept, g') ∧
        Forall (sampled_row lp) sorted ∧ sorted ≡ₚ kept ∧
        StronglySorted (Core.row_before "objective") sorted ∧
        rows = take 10 sorted.
Proof.
      unfold Core.sample_lp. intros Hrun.
      apply bind_Ok in Hrun as ([kept g'] & Hloop & Hrun). simpl in Hrun.
      apply bind_Ok in Hrun as (sorted & Hsort & [= <-]).
      exists kept, g', sorted. split; [done|].
      unfold Core.sample_rows in Hloop.
      apply sample_loop_spec in Hloop; [|constructor].
      apply (sort_values_desc_Ok _ _ _ _ shuffle_perm) in Hsort as [Hperm Hsorted].
      split_and!; try done. by rewrite Hperm.
Qed.

Lemma sample_lp_rows n seed rows :
      Core.sample_lp default_rng integers shuffle lp n seed = Ok rows →
      (length rows ≤ 10)%nat ∧ Forall (sampled_row lp) rows ∧
      StronglySorted (objective_desc lp) rows.
Proof.
      intros Hrun.
      destruct (sample_lp_inv _ _ _ Hrun) as (kept & g' & df & _ & Hdf & _ & Hsorted & ->).
      split_and!.
      - rewrite length_take. lia.
      - by apply Forall_take.
      - rewrite <- (take_drop 10 df) in Hsorted.
        apply StronglySorted_app_1_l in Hsorted.
        eapply StronglySorted_impl_elem; [|exact Hsorted].
        rewrite Forall_forall in Hdf.
        intros a b Ha Hb. apply sampled_row_before; apply Hdf.
        + by apply (subseteq_take 10 df).
        + by apply (subseteq_take 10 df).
Qed.

    (** The returned rows are the best of the kept ones. *)
Lemma sample_lp_best n seed rows :
      Core.sample_lp default_rng integers shuffle lp n seed = Ok rows →
      ∃ kept g',
        Core.sample_rows integers lp n (default_rng seed) = Ok (kept, g') ∧
        length rows = (10 `min` length kept)%nat ∧
        best_rows_of lp kept rows.
Proof.
      intros Hrun.
      destruct (sample_lp_inv _ _ _ Hrun)
        as (kept & g' & df & Hkept & Hdf & Hperm & Hsorted & ->).
      exists kept, g'. split_and!; [done | |].
      - rewrite length_take. by rewrite Hperm.
      - exists (drop 10 df). split; [by rewrite take_drop|].
        rewrite <- (take_drop 10 df) in Hsorted.
        rewrite Forall_forall in Hdf.
        intros r r' Hr Hr'.
        apply (sampled_row_before r r').
        + apply Hdf. by apply (subseteq_take 10 df).
        + apply Hdf. by apply (subseteq_drop 10 df).
        + by apply (StronglySorted_app_1_elem_of _ _ _ _ _ Hsorted).
Qed.

Lemma sample_once_total rows g :
      sampler_ready lp →
      ∃ rows' g', Core.sample_once integers lp (rows, g) = Ok (rows', g').
Proof.
      intros (Hub & Hcc & Hoc). destruct safe as [Hso Hsc].
      unfold Core.sample_once. unfold var_names, bounds in *. rewrite zip_fst_snd.
      simpl.
      destruct (draw_trial_total (vars lp) ∅ g Hub) as (t & g1 & Hd).
      rewrite Hd. simpl.
      apply (draw_trial_spec _ _ _ _ _ names_nodup) in Hd as [W _].
      destruct (any_violated_total t (constraints lp) (vars lp) W Hsc Hcc) as [bad ->].
      simpl. destruct bad; [eauto|].
      rewrite (dot64_total _ t _ W Hso Hoc). simpl. eauto.
Qed.

Lemma sample_loop_total (l : list Z) rows g :
      sampler_ready lp →
      ∃ rows' g',
        for_each (fun acc _ => Core.sample_once integers lp acc) l (rows, g)
        = Ok (rows', g').
Proof.
      intros Hr. revert rows g. induction l as [|i l IH]; intros rows g.
      - by exists rows, g.
      - cbn [for_each].
        destruct (sample_once_total rows g Hr) as (rows1 & g1 & ->). simpl.
        apply IH.
Qed.
End OneProblem.
End SamplerFacts.

(** C4 (amended): for a generator that draws from [[low, high)], a sort
    that only rearranges rows, and a problem with no variable named
    ["objective"] whose coefficient sums [Σ |coeff[v]| * ub[v]] stay below
    [2^63] (so that the 64-bit sums do not wrap), whatever [sample_lp]
    returns has at most 10 rows; every row is an assignment within the
    bounds that passes [lhs <= rhs] for every constraint (the declared
    sense is not read) and carries its objective value; the rows are sorted
    by objective value descending, whatever the declared sense of the
    objective; and they are the [min(10, n)] best of the [n] rows that the
    sampling loop kept.  For a well-formed description the sampling loop
    does not raise, and [sample_lp] returns as soon as one row is kept. *)
Theorem sampler_returns_sorted_rows {rng_t : Type}
    (default_rng : option Z → rng_t) (integers : rng_t → Z → Z → Z * rng_t)
    (shuffle : list (gmap string pynum) → list (gmap string pynum))
    (lp : lp_t) (num_samples : Z) (seed : option Z) :
  (∀ g low high, low < high → low ≤ (integers g low high).1 < high) →
  (∀ l, shuffle l ≡ₚ l) →
  NoDup (var_names lp) →
  "objective" ∉ var_names lp →
  int64_safe lp →
  (∀ rows,
     Core.sample_lp default_rng integers shuffle lp num_samples seed = Ok rows →
     (length rows ≤ 10)%nat ∧ Forall (sampled_row lp) rows ∧
     StronglySorted (objective_desc lp) rows ∧
     ∃ kept g',
       Core.sample_rows integers lp num_samples (default_rng seed) = Ok (kept, g') ∧
       length rows = (10 `min` length kept)%nat ∧
       best_rows_of lp kept rows) ∧
  (sampler_ready lp →
   ∃ kept g',
     Core.sample_rows integers lp num_samples (default_rng seed) = Ok (kept, g') ∧
     (kept ≠ [] →
      ∃ rows,
        Core.sample_lp default_rng integers shuffle lp num_samples seed = Ok rows)).
Proof.
  intros Hrange Hperm Hnd Hno Hsafe. split.
  - intros rows Hrun.
    destruct (sample_lp_rows default_rng integers shuffle Hrange Hperm lp Hnd Hno
                Hsafe _ _ _ Hrun) as (Hlen & Hrows & Hsorted).
    split_and!; try done.
    by apply (sample_lp_best default_rng integers shuffle Hrange Hperm lp Hnd Hno Hsafe).
  - intros Hready. unfold Core.sample_rows, Core.sample_lp.
    destruct (sample_loop_total integers Hrange lp Hnd Hsafe
                (range_values num_samples 1) [] (default_rng seed) Hready)
      as (kept & g' & Hloop).
    exists kept, g'. split; [done|]. intros Hne.
    unfold Core.sample_rows. rewrite Hloop. simpl.
    pose proof (sample_loop_spec integers Hrange lp Hnd Hno Hsafe _ _ _ _ _ Hloop
                  (Forall_nil_2 _)) as Hkept.
    destruct (sort_values_desc_total shuffle "objective" kept) as [sorted ->].
    + destruct kept as [|r kept]; [done|]. apply Exists_cons_hd.
      apply Forall_cons in Hkept as [(_ & _ & Hr) _]. by rewrite Hr.
    + simpl. eauto.
Qed.

(** C4, as stated, fails in two ways.  For a constraint of sense [">="]:
    with [x >= 5] and [0 <= x <= 3] no assignment is feasible, yet every
    draw is kept.  For sums beyond 64 bits: with the objective [2^62 * x]
    the row of the draw [x = 3] carries the wrapped value [-2^62], not its
    objective value [3 * 2^62]. *)
Lemma sampler_keeps_sense_violations :
  (∃ rows,
     Core.sample_lp lcg_default lcg_integers id lp_at_least 3 (Some 1) = Ok rows ∧
     rows ≠ [] ∧ Forall (fun r => ¬ feasible_at lp_at_least r) rows) ∧
  Core.sample_lp lcg_default lcg_integers id lp_wide 1 (Some 3)
  = Ok [ {[ "x" := Int 3; "objective" := Int (- 2 ^ 62) ]} ] ∧
  objective_value lp_wide {[ "x" := Int 3; "objective" := Int (- 2 ^ 62) ]}
  = 3 * 2 ^ 62.
Proof.
  split_and!; [|by vm_compute|by vm_compute].
  eexists. split; [by vm_compute|]. split; [done|].
  repeat (apply Forall_cons; split); [..|constructor];
    intros F; apply Forall_cons in F as [(_ & Hge & _) _];
    specialize (Hge eq_refl); vm_compute in Hge; by apply Hge.
Qed.

(** C5: when the sampling loop keeps no row, [sample_lp] does not return
    an empty table: sorting the column-less frame by ["objective"] raises
    [KeyError("objective")]. *)
Theorem sampler_without_rows_raises {rng_t : Type}
    (default_rng : option Z → rng_t) (integers : rng_t → Z → Z → Z * rng_t)
    (shuffle : list (gmap string pynum) → list (gmap string pynum))
    (lp : lp_t) (num_samples : Z) (seed : option Z) (g' : rng_t) :
  Core.sample_rows integers lp num_samples (default_rng seed) = Ok ([], g') →
  Core.sample_lp default_rng integers shuffle lp num_samples seed
  = Raise (KeyError "objective").
Proof.
  intros Hloop. unfold Core.sample_lp. rewrite Hloop. simpl.
  by rewrite sort_values_desc_empty.
Qed.

(** ** The theorems at concrete inputs *)

Lemma complete_check (d : gmap string pynum) (vs : list string) :
  complete_b d vs = true → complete d vs.
Proof.
  unfold complete_b. rewrite forallb_forall. intros H v Hv.
  apply list_elem_of_In in Hv. specialize (H v Hv).
  destruct (d !! v) as [[z| | |]|]; try done. by exists z.
Qed.

Lemma coeffs_total_check (cons : list constraint) (vs : list string) :
  coeffs_total_b cons vs = true →
  ∀ con v, con ∈ cons → v ∈ vs → is_Some (coeff con !! v).
Proof.
  unfold coeffs_total_b. rewrite forallb_forall. intros H con v Hcon Hv.
  apply list_elem_of_In in Hcon. specialize (H con Hcon).
  rewrite forallb_forall in H. apply list_elem_of_In in Hv.
  specialize (H v Hv). by apply bool_decide_eq_true in H.
Qed.

Lemma int64_safe_check (lp : lp_t) : int64_safe_b lp = true → int64_safe lp.
Proof.
  unfold int64_safe_b. rewrite andb_true_iff, forallb_forall.
  intros [Ho Hc]. split; [by apply Z.leb_le|].
  intros con Hcon. apply Z.leb_le, Hc. by apply list_elem_of_In.
Qed.

Lemma lcg_integers_range (g low high : Z) :
  low < high → low ≤ (lcg_integers g low high).1 < high.
Proof.
  intros H. unfold lcg_integers. simpl.
  pose proof (Z.mod_pos_bound g (high - low)). lia.
Qed.

Lemma lp_infeasible_no_pass (d : gmap string pynum) :
  in_grid (vars lp_infeasible) 1 d → ¬ plain_passes lp_infeasible d.
Proof.
  intros G Hpass.
  destruct (G "x" 15) as (k & Hk0 & _ & Hv); [by left|].
  assert (complete d (var_names lp_infeasible)) as C.
  { intros w Hw. apply list_elem_of_singleton in Hw as ->. eauto. }
  destruct (plain_feasible_total d _ C (constraints lp_infeasible)) as (b & Hb & Hiff).
  { by apply coeffs_total_check. }
  unfold plain_passes in Hpass. rewrite Hb in Hpass. injection Hpass as ->.
  assert (le_satisfies (constraints lp_infeasible) d (var_names lp_infeasible)) as HF
    by by apply Hiff.
  apply Forall_cons in HF as [Hle _].
  unfold weighted_sum, Zsum, value in Hle. simpl in Hle.
  rewrite Hv in Hle. rewrite lookup_singleton_eq in Hle. simpl in Hle. lia.
Qed.

Lemma feasible_iff_satisfies_witness :
  ∃ b : bool,
    Friendly._feasible {[ "x" := Int 2; "y" := Int 3 ]}
      (constraints lp_scenario_b) ["x"; "y"] = Ok b ∧
    (b = true ↔
     ∀ con, con ∈ constraints lp_scenario_b →
       holds con (weighted_sum (coeff con) {[ "x" := Int 2; "y" := Int 3 ]}
                    ["x"; "y"])).
Proof.
  apply (feasible_iff_satisfies {[ "x" := Int 2; "y" := Int 3 ]}
           (constraints lp_scenario_b) ["x"; "y"]).
  apply complete_check. vm_compute. reflexivity.
Defined.

Lemma report_rows_slack_witness :
  ∃ rows,
    Friendly.build_report lp_scenario_b
      {[ "x" := Int 0; "y" := Int 5; "objective" := Int 15 ]} = Ok rows ∧
    length rows = length (constraints lp_scenario_b) ∧
    ∀ (i : nat) con, constraints lp_scenario_b !! i = Some con →
      ∃ r, rows !! i = Some r ∧
           row_for {[ "x" := Int 0; "y" := Int 5; "objective" := Int 15 ]}
             (var_names lp_scenario_b) con r.
Proof.
  apply (report_rows_slack lp_scenario_b
           {[ "x" := Int 0; "y" := Int 5; "objective" := Int 15 ]}).
  apply complete_check. vm_compute. reflexivity.
Defined.

Lemma friendly_returns_grid_optimum_witness :
  (∀ best report,
     Friendly.brute_force_lp_friendly lp_scenario_b 1 = Ok (best, report) →
     optimum_on_grid lp_scenario_b 1 best) ∧
  ((∀ v, v ∈ var_names lp_scenario_b →
         is_Some (obj_coeff (objective lp_scenario_b) !! v)) →
   (∃ d, in_grid (vars lp_scenario_b) 1 d ∧ feasible_at lp_scenario_b d) →
   ∃ best report,
     Friendly.brute_force_lp_friendly lp_scenario_b 1 = Ok (best, report)).
Proof.
  apply (friendly_returns_grid_optimum lp_scenario_b 1).
  - lia.
  - apply (bool_decide_unpack _). vm_compute. exact I.
  - apply (bool_decide_unpack _). vm_compute. exact I.
Defined.



Lemma plain_no_pass_raises_witness :
  ∃ k, Core.brute_force_lp lp_infeasible 1 = Raise (KeyError k).
Proof.
  apply (plain_no_pass_raises lp_infeasible 1).
  - lia.
  - apply (bool_decide_unpack _). vm_compute. exact I.
  - apply (bool_decide_unpack _). vm_compute. exact I.
  - discriminate.
  - discriminate.
  - exact lp_infeasible_no_pass.
Defined.

Lemma sampler_returns_sorted_rows_witness :
  (∀ rows,
     Core.sample_lp lcg_default lcg_integers id lp_scenario_b 20 (Some 7) = Ok rows →
     (length rows ≤ 10)%nat ∧ Forall (sampled_row lp_scenario_b) rows ∧
     StronglySorted (objective_desc lp_scenario_b) rows ∧
     ∃ kept g',
       Core.sample_rows lcg_integers lp_scenario_b 20 (lcg_default (Some 7))
       = Ok (kept, g') ∧
       length rows = (10 `min` length kept)%nat ∧
       best_rows_of lp_scenario_b kept rows) ∧
  (sampler_ready lp_scenario_b →
   ∃ kept g',
     Core.sample_rows lcg_integers lp_scenario_b 20 (lcg_default (Some 7))
     = Ok (kept, g') ∧
     (kept ≠ [] →
      ∃ rows,
        Core.sample_lp lcg_default lcg_integers id lp_scenario_b 20 (Some 7) = Ok rows)).
Proof.
  apply (sampler_returns_sorted_rows lcg_default lcg_integers id lp_scenario_b 20 (Some 7)).
  - exact lcg_integers_range.
  - intros l. reflexivity.
  - apply (bool_decide_unpack _). vm_compute. exact I.
  - apply (bool_decide_unpack _). vm_compute. exact I.
  - apply int64_safe_check. vm_compute. reflexivity.
Defined.

Lemma sampler_without_rows_raises_witness :
  Core.sample_lp lcg_default lcg_integers id lp_infeasible 5 (Some 1)
  = Raise (KeyError "objective").
Proof.
  eapply (sampler_without_rows_raises lcg_default lcg_integers id lp_infeasible 5 (Some 1)).
  vm_compute. reflexivity.
Defined.

(** ** Further properties of the sense-aware searcher *)

Lemma bind_nil_r {A B : Type} (l : list A) : l ≫= (fun _ : A => @nil B) = [].
Proof. induction l as [|x l IH]; [done|]. by rewrite bind_cons, IH. Qed.

Lemma range_values_negative_step (stop step : Z) :
  step < 0 → 0 ≤ stop → range_values stop step = [].
Proof.
  intros Hs Hstop. unfold range_values, range_len.
  destruct (Z.ltb_spec 0 step) as [|_]; [lia|].
  assert ((- stop + - step - 1) `div` (- step) ≤ 0) as Hq.
  { assert ((- stop + - step - 1) `div` (- step) < 1); [|lia].
    apply Z.div_lt_upper_bound; lia. }
  by replace (Z.to_nat (0 `max` _)) with 0%nat by lia.
Qed.

Lemma enum_nil (step : Z) (rest : list (string * Z)) (trial : gmap string pynum)
    (v : string) (ub : Z) :
  (v, ub) ∈ rest → range_values (ub + 1) step = [] → enum step rest trial = [].
Proof.
  revert trial. induction rest as [|[w ub'] rest IH]; intros trial Hin Hr.
  - by apply elem_of_nil in Hin.
  - simpl. apply elem_of_cons in Hin as [[= <- <-]|Hin].
    + by rewrite Hr.
    + erewrite list_bind_ext; [apply bind_nil_r| |done].
      intros x. by apply IH.
Qed.

Lemma enum_dom (step : Z) (rest : list (string * Z)) (trial t : gmap string pynum) :
  t ∈ enum step rest trial → dom t = list_to_set rest.*1 ∪ dom trial.
Proof.
  revert trial. induction rest as [|[v ub] rest IH]; intros trial Ht.
  - simpl in Ht. apply list_elem_of_singleton in Ht as ->. set_solver.
  - simpl in Ht. apply list_elem_of_bind in Ht as (x & Ht & _).
    rewrite (IH _ Ht), dom_insert_L, fmap_cons. simpl. set_solver.
Qed.

Lemma in_grid_multiple (vbs : list (string * Z)) (step k : Z)
    (d : gmap string pynum) :
  0 < k → in_grid vbs (step * k) d → in_grid vbs step d.
Proof.
  intros Hk G v ub Hv. destruct (G v ub Hv) as (j & Hj & Hub & Hd).
  exists (j * k). split_and!; [lia | lia |].
  rewrite Hd. do 2 f_equal. lia.
Qed.

Lemma report_row_slack_value (con : constraint) (d : gmap string pynum)
    (vs : list string) :
  complete d vs →
  ∃ r, Friendly.report_row con d vs = Ok r ∧
       Friendly.row_slack r
       = Int (slack_value con (weighted_sum (coeff con) d vs)).
Proof.
  intros C. unfold Friendly.report_row, slack_value.
  rewrite (lhs_of_complete con d vs C). simpl.
  destruct (String.eqb (con_sense con) "<="); simpl.
  { eexists; split; [done|]; simpl; try done; f_equal; lia. }
  destruct (String.eqb (con_sense con) ">="); simpl.
  { eexists; split; [done|]; simpl; try done; f_equal; lia. }
  eexists. by split.
Qed.

Lemma build_report_slack_value (lp : lp_t) (d : gmap string pynum)
    (rows : list Friendly.row) :
  complete d (var_names lp) →
  Friendly.build_report lp d = Ok rows →
  Forall2 (fun con r =>
             Friendly.row_slack r
             = Int (slack_value con (weighted_sum (coeff con) d (var_names lp))))
          (constraints lp) rows.
Proof.
  intros C. unfold Friendly.build_report. revert rows.
  induction (constraints lp) as [|con cons IH]; intros rows Hr.
  - injection Hr as <-. constructor.
  - cbn [mapM] in Hr.
    destruct (report_row_slack_value con d (var_names lp) C) as (r & Er & Hs).
    rewrite Er in Hr. simpl in Hr.
    apply bind_Ok in Hr as (rows' & Hrows' & [= <-]).
    constructor; [done | by apply IH].
Qed.

Lemma slack_value_nonneg (con : constraint) (lhs : Z) :
  holds con lhs → 0 ≤ slack_value con lhs.
Proof.
  intros (Hle & Hge & _). unfold slack_value.
  destruct (String.eqb_spec (con_sense con) "<=") as [E|_]; [specialize (Hle E); lia|].
  destruct (String.eqb_spec (con_sense con) ">=") as [E|_]; [specialize (Hge E); lia|].
  lia.
Qed.

(** What a successful run returns, read at the declared variables when
    none of them is named ["objective"]. *)
Lemma friendly_best_merged (lp : lp_t) (step : Z)
    (best : gmap string pynum) (report : list Friendly.row) :
  0 < step →
  NoDup (var_names lp) →
  "objective" ∉ var_names lp →
  Friendly.brute_force_lp_friendly lp step = Ok (best, report) →
  in_grid (vars lp) step best ∧ feasible_at lp best ∧
  ∀ d, in_grid (vars lp) step d → feasible_at lp d →
       ¬ strictly_better lp (objective_value lp d) (objective_value lp best).
Proof.
  intros Hstep Hnd Hno Hrun.
  destruct (friendly_best lp step Hstep Hnd best report Hrun)
    as (t & -> & Gt & Ft & Hopt & _).
  pose proof (same_on_merged (var_names lp) t (Int (objective_value lp t)) Hno) as E.
  pose proof (same_on_sym _ _ _ E) as E'.
  split_and!.
  - by apply (in_grid_ext (vars lp) step t).
  - by apply (feasible_at_ext lp t).
  - intros d Gd Fd. rewrite (objective_value_ext lp _ t E). by apply Hopt.
Qed.

(** X1: for a positive step and a problem in which every variable has an
    objective coefficient, [brute_force_lp_friendly] raises
    [ValueError("No feasible solution found.")] exactly when no grid
    assignment satisfies all constraints. *)
Theorem friendly_raises_iff_infeasible (lp : lp_t) (step : Z) :
  0 < step →
  NoDup (var_names lp) →
  (∀ v, v ∈ var_names lp → is_Some (obj_coeff (objective lp) !! v)) →
  Friendly.brute_force_lp_friendly lp step
  = Raise (ValueError "No feasible solution found.")
  ↔ ∀ d, in_grid (vars lp) step d → ¬ feasible_at lp d.
Proof.
  intros Hstep Hnd Hc. split.
  - intros Hraise d Gd Fd.
    destruct (friendly_returns lp step Hstep Hnd Hc) as (best & report & Hrun).
    { by exists d. }
    rewrite Hrun in Hraise. discriminate.
  - intros Hnone. by apply friendly_infeasible.
Qed.

(** X2: a step of zero makes both exhaustive solvers raise the
    [ValueError] of [range] as soon as one variable is declared, whatever
    the constraints are. *)
Theorem zero_step_raises (lp : lp_t) :
  vars lp ≠ [] →
  Friendly.brute_force_lp_friendly lp 0
  = Raise (ValueError "range() arg 3 must not be zero") ∧
  Core.brute_force_lp lp 0
  = Raise (ValueError "range() arg 3 must not be zero").
Proof.
  intros Hne. unfold Friendly.brute_force_lp_friendly, Core.brute_force_lp, bounds.
  destruct (vars lp) as [|[v ub] vbs]; [done|]. split.
  - cbn [Friendly.recurse]. unfold py_range. simpl. done.
  - rewrite fmap_cons. cbn [mapM]. unfold py_range at 1. simpl. done.
Qed.

(** X3: with a negative step, a declared variable whose bound is at least
    -1 has an empty range, so the sense-aware searcher visits no trial and
    raises [ValueError("No feasible solution found.")], even when the
    problem has feasible assignments. *)
Theorem negative_step_finds_nothing (lp : lp_t) (step : Z) (v : string) (ub : Z) :
  step < 0 →
  (v, ub) ∈ vars lp →
  -1 ≤ ub →
  Friendly.brute_force_lp_friendly lp step
  = Raise (ValueError "No feasible solution found.").
Proof.
  intros Hstep Hin Hub. unfold Friendly.brute_force_lp_friendly.
  rewrite recurse_enum by lia.
  rewrite (enum_nil step (vars lp) ∅ v ub Hin).
  - done.
  - apply range_values_negative_step; lia.
Qed.

(** X4: the dict returned by [brute_force_lp_friendly] has exactly the
    declared variables and ["objective"] as keys, and the report has one
    row per constraint. *)
Theorem friendly_result_keys (lp : lp_t) (step : Z)
    (best : gmap string pynum) (report : list Friendly.row) :
  0 < step →
  NoDup (var_names lp) →
  Friendly.brute_force_lp_friendly lp step = Ok (best, report) →
  dom best = list_to_set (var_names lp) ∪ {[ "objective" ]} ∧
  length report = length (constraints lp).
Proof.
  intros Hstep Hnd Hrun.
  destruct (friendly_Ok_inv lp step Hstep Hnd best report Hrun)
    as (t & l1 & l2 & El & -> & _ & _ & _ & HF).
  split.
  - assert (t ∈ enum step (vars lp) ∅) as Ht.
    { rewrite El. apply elem_of_app. right. by left. }
    rewrite dom_insert_L, (enum_dom _ _ _ _ Ht). unfold var_names. set_solver.
  - symmetry. exact (Forall2_length _ _ _ HF).
Qed.

(** X5: when no variable is named ["objective"], every row of the report
    that [brute_force_lp_friendly] returns shows a non-negative integer
    slack. *)
Theorem friendly_report_slack_nonneg (lp : lp_t) (step : Z)
    (best : gmap string pynum) (report : list Friendly.row) :
  0 < step →
  NoDup (var_names lp) →
  "objective" ∉ var_names lp →
  Friendly.brute_force_lp_friendly lp step = Ok (best, report) →
  Forall (fun r => ∃ s : Z, Friendly.row_slack r = Int s ∧ 0 ≤ s) report.
Proof.
  intros Hstep Hnd Hno Hrun.
  destruct (friendly_best_merged lp step best report Hstep Hnd Hno Hrun)
    as (Gb & Fb & _).
  pose proof Hrun as Hrun'. rewrite (friendly_unfold lp step Hstep) in Hrun'.
  apply bind_Ok in Hrun' as (st & _ & Hrun').
  destruct (Friendly.best_soln st) as [soln|]; [|done].
  apply bind_Ok in Hrun' as (rows & Hrows & [= Eb <-]). rewrite Eb in Hrows.
  assert (complete best (var_names lp)) as C.
  { intros w Hw. apply list_elem_of_fmap in Hw as ([w' ub] & -> & Hw).
    destruct (Gb w' ub Hw) as (k & _ & _ & Hk). eauto. }
  pose proof (build_report_slack_value lp best rows C Hrows) as HF.
  unfold feasible_at, satisfies in Fb. clear Hrows Hrun.
  induction HF as [|con r cons rows Hr HF IH]; [constructor|].
  apply Forall_cons in Fb as [Hh Fb]. constructor; [|by apply IH].
  eexists. split; [exact Hr|]. by apply slack_value_nonneg.
Qed.

(** X6: a coarser grid never finds a better optimum: when no variable is
    named ["objective"] and the searcher returns both for [step] and for a
    positive multiple of it, the value for the multiple is no larger (sense
    [max]) and no smaller (sense [min]) than the value for [step]. *)
Theorem coarser_grid_never_better (lp : lp_t) (step k : Z)
    (fine coarse : gmap string pynum) (report report' : list Friendly.row) :
  0 < step →
  0 < k →
  NoDup (var_names lp) →
  "objective" ∉ var_names lp →
  Friendly.brute_force_lp_friendly lp step = Ok (fine, report) →
  Friendly.brute_force_lp_friendly lp (step * k) = Ok (coarse, report') →
  (objective_sense lp = "max" →
   objective_value lp coarse ≤ objective_value lp fine) ∧
  (objective_sense lp = "min" →
   objective_value lp fine ≤ objective_value lp coarse).
Proof.
  intros Hstep Hk Hnd Hno Hfine Hcoarse.
  destruct (merged_optimum_on_grid lp step fine report Hstep Hnd Hno Hfine)
    as (_ & _ & _ & Hmax & Hmin).
  assert (0 < step * k) as Hsk by lia.
  destruct (merged_optimum_on_grid lp (step * k) coarse report' Hsk Hnd Hno Hcoarse)
    as (Gc & Fc & _).
  apply (in_grid_multiple _ _ _ _ Hk) in Gc.
  split; intros Hs; [by apply Hmax | by apply Hmin].
Qed.

(** X7: a constraint whose sense is none of ["<="], [">="] and ["="] is
    never tested: on a complete assignment [_feasible] gives the result it
    gives without that constraint, and the report shows slack 0 for it. *)
Theorem unknown_sense_is_ignored (trial : gmap string pynum) (con : constraint)
    (cons : list constraint) (vs : list string) :
  complete trial vs →
  ¬ known_sense (con_sense con) →
  Friendly._feasible trial (con :: cons) vs = Friendly._feasible trial cons vs ∧
  ∃ r, Friendly.report_row con trial vs = Ok r ∧ Friendly.row_slack r = Int 0.
Proof.
  intros C Hun. unfold known_sense in Hun.
  assert (String.eqb (con_sense con) "<=" = false) as E1
    by (apply String.eqb_neq; tauto).
  assert (String.eqb (con_sense con) ">=" = false) as E2
    by (apply String.eqb_neq; tauto).
  assert (String.eqb (con_sense con) "=" = false) as E3
    by (apply String.eqb_neq; tauto).
  split.
  - cbn [Friendly._feasible]. rewrite (lhs_of_complete con trial vs C).
    simpl. by rewrite E1, E2, E3.
  - destruct (report_row_slack_value con trial vs C) as (r & Hr & Hs).
    exists r. split; [done|]. rewrite Hs. unfold slack_value. by rewrite E1, E2.
Qed.

(** X8: [_feasible] reads [trial[v]] for the declared variables in order:
    if the first variable without an entry is [v] and there is a
    constraint, the call ends in [KeyError(v)]; with no constraint it
    returns [True] without reading the trial. *)
Theorem feasible_missing_variable (trial : gmap string pynum) (con : constraint)
    (cons : list constraint) (vs1 vs2 : list string) (v : string) :
  complete trial vs1 →
  trial !! v = None →
  Friendly._feasible trial (con :: cons) (vs1 ++ v :: vs2) = Raise (KeyError v) ∧
  Friendly._feasible trial [] (vs1 ++ v :: vs2) = Ok true.
Proof.
  intros C Hv. split; [|done].
  cbn [Friendly._feasible]. unfold Friendly.lhs_of, py_sum.
  rewrite for_each_app.
  rewrite (py_sum_acc _ (fun w => default 0 (coeff con !! w) * value trial w) vs1 0).
  - simpl. unfold getitem. rewrite Hv. done.
  - intros w Hw. destruct (C w Hw) as [z Hz]. unfold getitem. rewrite Hz. simpl.
    by rewrite (value_lookup _ _ _ Hz).
Qed.

(** X9: the objective sense is compared after lower-casing: when no
    variable is named ["objective"], the value returned by
    [brute_force_lp_friendly] is the maximum over the feasible grid
    assignments if the sense is ["max"] in any letter case, and the minimum
    for every other sense string. *)
Theorem friendly_sense_lowercased (lp : lp_t) (step : Z)
    (best : gmap string pynum) (report : list Friendly.row) :
  0 < step →
  NoDup (var_names lp) →
  "objective" ∉ var_names lp →
  Friendly.brute_force_lp_friendly lp step = Ok (best, report) →
  (lower (objective_sense lp) = "max" →
   ∀ d, in_grid (vars lp) step d → feasible_at lp d →
        objective_value lp d ≤ objective_value lp best) ∧
  (lower (objective_sense lp) ≠ "max" →
   ∀ d, in_grid (vars lp) step d → feasible_at lp d →
        objective_value lp best ≤ objective_value lp d).
Proof.
  intros Hstep Hnd Hno Hrun.
  destruct (friendly_best_merged lp step best report Hstep Hnd Hno Hrun)
    as (_ & _ & Hopt).
  unfold strictly_better, Friendly.is_max in Hopt.
  fold (objective_sense lp) in Hopt.
  split; intros Hs d Gd Fd; specialize (Hopt d Gd Fd).
  - rewrite Hs in Hopt. simpl in Hopt. lia.
  - apply String.eqb_neq in Hs. rewrite Hs in Hopt. lia.
Qed.

(** ** The plain solver as a run of the sense-aware search *)

Lemma fmap_bind_dist {A B C : Type} (f : B → C) (g : A → list B) (l : list A) :
  f <$> (l ≫= g) = l ≫= (fun x => f <$> g x).
Proof.
  induction l as [|x l IH]; [done|]. by rewrite !bind_cons, fmap_app, IH.
Qed.

Lemma enum_product (step : Z) (vbs : list (string * Z)) (trial : gmap string pynum) :
  enum step vbs trial
  = (fun combo => foldl (fun d kv => <[kv.1 := kv.2]> d) trial
                        (zip vbs.*1 (Int <$> combo)))
    <$> Core.product (pools_of vbs step).
Proof.
  revert trial. induction vbs as [|[v ub] vbs IH]; intros trial; [done|].
  unfold pools_of. rewrite !fmap_cons. cbn [enum Core.product].
  fold (pools_of vbs step).
  rewrite fmap_bind_dist. apply list_bind_ext; [|done].
  intros x. rewrite IH, <- list_fmap_compose. by apply list_fmap_ext.
Qed.

Lemma trials_as_product (lp : lp_t) (step : Z) :
  enum step (vars lp) ∅ = trial_of lp <$> Core.product (pools_of (vars lp) step).
Proof. apply enum_product. Qed.

Lemma product_length (pools : list (list Z)) (combo : list Z) :
  combo ∈ Core.product pools → length combo = length pools.
Proof. intros Hc. apply elem_of_product in Hc. exact (Forall2_length _ _ _ Hc). Qed.

Lemma feasible_agree (trial : gmap string pynum) (cons : list constraint)
    (vs : list string) :
  complete trial vs →
  (∀ con, con ∈ cons → con_sense con = "<=") →
  (∀ con v, con ∈ cons → v ∈ vs → is_Some (coeff con !! v)) →
  Core.feasible trial cons vs = Friendly._feasible trial cons vs.
Proof.
  intros C. induction cons as [|con cons IH]; intros Hs Hc; [done|].
  cbn [Core.feasible Friendly._feasible].
  rewrite (dot_total (coeff con) trial vs C).
  2:{ intros v Hv. apply Hc; [by left | done]. }
  rewrite (lhs_of_complete con trial vs C). simpl.
  rewrite (Hs con) by by left. simpl. rewrite !orb_false_r.
  rewrite IH; [done | |].
  - intros c Hcin. apply Hs. by right.
  - intros c v Hcin Hv. apply Hc; [by right | done].
Qed.

Lemma encode_state_objective (st : Friendly.search_state) :
  getitem (encode_state st) "objective" = Ok (Friendly.best_obj st).
Proof.
  unfold getitem, encode_state. destruct (Friendly.best_soln st).
  - by rewrite lookup_insert_eq.
  - by rewrite lookup_singleton_eq.
Qed.

Section Simulation.
Variable lp : lp_t.
Hypothesis le_max : is_le_max lp.
Hypothesis total : coeffs_total lp.

Lemma try_combo_sim (st : Friendly.search_state) (combo : list Z) :
  length combo = length (var_names lp) →
  Core.try_combo lp (encode_state st) combo
  = Friendly.visit lp (trial_of lp combo) st ≫= (fun st' => Ok (encode_state st')).
Proof.
  intros Hlen. destruct le_max as [Hmax Hsense].
  pose proof (trial_of_complete lp combo Hlen) as C.
  unfold Core.try_combo, Friendly.visit. fold (trial_of lp combo).
  rewrite (feasible_agree _ _ _ C Hsense total).
  destruct (Friendly._feasible _ _ _) as [[|]|e]; simpl; [|done|done].
  change (Core.dot (obj_coeff (objective lp)) (trial_of lp combo) (var_names lp))
    with (Friendly.objective_of lp (trial_of lp combo) (var_names lp)).
  destruct (Friendly.objective_of _ _ _) as [obj|e]; simpl; [|done].
  rewrite encode_state_objective. simpl. rewrite Hmax.
  by destruct (pynum_gt obj (Friendly.best_obj st)).
Qed.

Lemma search_sim (combos : list (list Z)) (st : Friendly.search_state) :
  (∀ combo, combo ∈ combos → length combo = length (var_names lp)) →
  for_each (Core.try_combo lp) combos (encode_state st)
  = visit_all lp (trial_of lp <$> combos) st ≫= (fun st' => Ok (encode_state st')).
Proof.
  revert st. induction combos as [|combo combos IH]; intros st Hlen; [done|].
  rewrite fmap_cons, visit_all_cons. cbn [for_each].
  rewrite try_combo_sim by (apply Hlen; by left).
  destruct (Friendly.visit lp (trial_of lp combo) st) as [st'|e]; simpl; [|done].
  apply IH. intros c Hc. apply Hlen. by right.
Qed.

(** The plain solver runs the same search and encodes its final state. *)
Lemma plain_unfold (step : Z) :
  step ≠ 0 →
  Core.brute_force_lp lp step
  = st ← visit_all lp (enum step (vars lp) ∅) (init_state lp);
    report ← mapM (fun con => Core.report_row con (encode_state st) (var_names lp))
                  (constraints lp);
    Ok (encode_state st, report).
Proof.
  intros Hstep. unfold Core.brute_force_lp, bounds.
  rewrite (pools_Ok step (vars lp).*2 Hstep). simpl.
  fold (pools_of (vars lp) step).
  assert (({[ "objective" := NegInf ]} : gmap string pynum)
          = encode_state (init_state lp)) as ->.
  { unfold encode_state, init_state, init_obj. simpl.
    destruct le_max as [-> _]. done. }
  rewrite search_sim, <- trials_as_product.
  - by destruct (visit_all lp _ _).
  - intros combo Hc. apply product_length in Hc. rewrite Hc.
    unfold pools_of, var_names. by rewrite !length_fmap.
Qed.

Lemma plain_report_agree (best : gmap string pynum) (rows : list Friendly.row) :
  complete best (var_names lp) →
  Friendly.build_report lp best = Ok rows →
  mapM (fun con => Core.report_row con best (var_names lp)) (constraints lp)
  = Ok (plain_row_of <$> rows).
Proof.
  intros C. unfold Friendly.build_report.
  pose proof total as Ht. unfold coeffs_total in Ht. revert rows Ht.
  induction (constraints lp) as [|con cons IH]; intros rows Ht Hr.
  - by injection Hr as <-.
  - cbn [mapM] in *.
    apply bind_Ok in Hr as (r & Hrow & Hr).
    apply bind_Ok in Hr as (rows' & Hrows' & [= <-]).
    assert (Core.report_row con best (var_names lp) = Ok (plain_row_of r)) as ->.
    { unfold Core.report_row.
      rewrite (dot_total (coeff con) best (var_names lp) C).
      2:{ intros v Hv. apply Ht; [by left | done]. }
      unfold Friendly.report_row in Hrow.
      rewrite (lhs_of_complete con best (var_names lp) C) in Hrow. simpl in Hrow.
      apply bind_Ok in Hrow as (slack & _ & [= <-]). done. }
    simpl. rewrite (IH rows'); [done | | done].
    intros c v Hc Hv. apply Ht; [by right | done].
Qed.
End Simulation.

Lemma plain_le_max_form (lp : lp_t) (step : Z) :
  Core.brute_force_lp (le_max_form lp) step = Core.brute_force_lp lp step.
Proof.
  unfold Core.brute_force_lp, bounds, var_names. simpl.
  destruct (mapM _ (vars lp).*2) as [pools|e]; simpl; [|done].
  rewrite (for_each_ext (Core.try_combo (le_max_form lp)) (Core.try_combo lp)).
  2:{ intros best combo. unfold Core.try_combo, var_names. simpl.
      by rewrite feasible_with_senses. }
  destruct (for_each _ _ _) as [best|e]; simpl; [|done].
  by rewrite mapM_fmap.
Qed.

Lemma le_max_form_is_le_max (lp : lp_t) : is_le_max (le_max_form lp).
Proof.
  split; [done|]. intros con Hcon. simpl in Hcon.
  apply list_elem_of_fmap in Hcon as (c & -> & _). done.
Qed.

Lemma le_max_form_total (lp : lp_t) : coeffs_total lp → coeffs_total (le_max_form lp).
Proof.
  intros Ht con v Hcon Hv. simpl in Hcon.
  apply list_elem_of_fmap in Hcon as (c & -> & Hc). simpl. by apply Ht.
Qed.

Lemma le_max_form_feasible (lp : lp_t) (d : gmap string pynum) :
  feasible_at (le_max_form lp) d ↔ le_satisfies (constraints lp) d (var_names lp).
Proof.
  unfold feasible_at, satisfies, le_satisfies. simpl. rewrite Forall_fmap.
  apply Forall_iff. intros con. unfold holds, con_sense. simpl.
  change (var_names (le_max_form lp)) with (var_names lp).
  split; [intros (H & _); by apply H | intros H; split_and!; intros; done].
Qed.

(** X10: on a maximisation problem whose constraints are all ["<="] and
    give a coefficient to every variable, the plain solver returns the dict
    that the sense-aware searcher returns, and its report has the
    constraint, lhs and rhs fields of the sense-aware report. *)
Theorem plain_agrees_with_friendly (lp : lp_t) (step : Z)
    (best : gmap string pynum) (report : list Friendly.row) :
  0 < step →
  NoDup (var_names lp) →
  is_le_max lp →
  coeffs_total lp →
  Friendly.brute_force_lp_friendly lp step = Ok (best, report) →
  Core.brute_force_lp lp step = Ok (best, plain_row_of <$> report).
Proof.
  intros Hstep Hnd Hle Ht Hrun.
  destruct (friendly_Ok_inv lp step Hstep Hnd best report Hrun)
    as (t & l1 & l2 & El & Eb & _).
  assert (complete best (var_names lp)) as C.
  { rewrite Eb. apply merged_complete.
    pose proof (trials_complete lp step Hstep Hnd) as TC. rewrite El in TC.
    apply Forall_app in TC as [_ TC]. by apply Forall_cons in TC as [? _]. }
  rewrite (friendly_unfold lp step Hstep) in Hrun.
  apply bind_Ok in Hrun as (st & Hst & Hrun).
  rewrite (plain_unfold lp Hle Ht step) by lia. rewrite Hst. simpl.
  unfold encode_state. destruct (Friendly.best_soln st) as [soln|]; [|done].
  apply bind_Ok in Hrun as (rows & Hrows & [= Ebest <-]).
  rewrite Ebest. rewrite Ebest in Hrows.
  by rewrite (plain_report_agree lp Ht best rows C Hrows).
Qed.

(** X11: the plain solver maximises under the test [lhs <= rhs], whatever
    senses the constraints and the objective declare: when no variable is
    named ["objective"], every constraint has a coefficient for every
    variable and some grid assignment passes the test, the dict it returns
    is such an assignment with its objective value, and no grid assignment
    that passes has a larger objective value. *)
Theorem plain_maximises_under_le (lp : lp_t) (step : Z)
    (best : gmap string pynum) (report : list Core.row) :
  0 < step →
  NoDup (var_names lp) →
  "objective" ∉ var_names lp →
  coeffs_total lp →
  (∃ d, in_grid (vars lp) step d ∧ le_satisfies (constraints lp) d (var_names lp)) →
  Core.brute_force_lp lp step = Ok (best, report) →
  in_grid (vars lp) step best ∧
  le_satisfies (constraints lp) best (var_names lp) ∧
  best !! "objective" = Some (Int (objective_value lp best)) ∧
  ∀ d, in_grid (vars lp) step d →
       le_satisfies (constraints lp) d (var_names lp) →
       objective_value lp d ≤ objective_value lp best.
Proof.
  intros Hstep Hnd Hno Ht (d0 & Gd0 & Fd0) Hrun.
  set (lp' := le_max_form lp).
  rewrite <- (plain_le_max_form lp step) in Hrun. fold lp' in Hrun.
  rewrite (plain_unfold lp' (le_max_form_is_le_max lp) (le_max_form_total lp Ht) step)
    in Hrun by lia.
  apply bind_Ok in Hrun as (st & Hst & Hrun).
  apply bind_Ok in Hrun as (rows & _ & [= <- _]).
  assert (NoDup (var_names lp')) as Hnd' by done.
  pose proof (visit_all_inv lp' _ _ (trials_complete lp' step Hstep Hnd') Hst) as Hinv.
  unfold search_inv in Hinv. unfold encode_state.
  destruct (Friendly.best_soln st) as [t|] eqn:Es.
  2:{ exfalso. destruct Hinv as [_ Hnone].
      destruct (enum_covers step Hstep (vars lp) ∅ d0 Gd0) as (u & Hu & Eu).
      rewrite Forall_forall in Hnone. apply (Hnone u Hu).
      apply (feasible_at_ext lp' d0 u (same_on_sym _ _ _ Eu)).
      by apply le_max_form_feasible. }
  destruct Hinv as (l1 & l2 & El & Eo & _).
  assert (complete t (var_names lp')) as Ct.
  { pose proof (trials_complete lp' step Hstep Hnd') as TC. rewrite El in TC.
    apply Forall_app in TC as [_ TC]. by apply Forall_cons in TC as [? _]. }
  destruct (build_report_complete lp' _
              (merged_complete lp' t (objective_value lp' t) Ct)) as (rows' & Hrows' & _).
  assert (Friendly.brute_force_lp_friendly lp' step
          = Ok (<["objective" := Friendly.best_obj st]> t, rows')) as Hfr.
  { rewrite (friendly_unfold lp' step Hstep), Hst. simpl. rewrite Es, Eo.
    by rewrite Hrows'. }
  destruct (merged_optimum_on_grid lp' step _ rows' Hstep Hnd' Hno Hfr)
    as (Gb & Fb & Ob & Hmax & _).
  split_and!.
  - exact Gb.
  - by apply le_max_form_feasible.
  - exact Ob.
  - intros d Gd Fd. apply (Hmax eq_refl d Gd). by apply le_max_form_feasible.
Qed.

(** ** Further properties of the sampler *)

Lemma range_values_nonpositive (n : Z) : n ≤ 0 → range_values n 1 = [].
Proof.
  intros Hn. unfold range_values, range_len. simpl.
  rewrite Z.div_1_r. by replace (Z.to_nat (0 `max` (n + 1 - 1))) with 0%nat by lia.
Qed.

Lemma range_values_positive (n : Z) : 0 < n → ∃ l, range_values n 1 = 0 :: l.
Proof.
  intros Hn. unfold range_values, range_len. simpl. rewrite Z.div_1_r.
  destruct (Z.to_nat (0 `max` (n + 1 - 1))) as [|m] eqn:E; [lia|].
  simpl. eauto.
Qed.

Lemma draw_trial_negative_bound {rng_t : Type}
    (integers : rng_t → Z → Z → Z * rng_t) (vbs : list (string * Z))
    (trial : gmap string pynum) (g : rng_t) (v : string) (ub : Z) :
  (∀ w ub', (w, ub') ∈ vbs → ub' ≤ 2 ^ 63 - 1) →
  (v, ub) ∈ vbs → ub < 0 →
  Core.draw_trial integers vbs trial g = Raise (ValueError "high <= 0").
Proof.
  revert trial g. induction vbs as [|[w ub'] vbs IH]; intros trial g Hfit Hin Hub.
  - by apply elem_of_nil in Hin.
  - cbn [Core.draw_trial].
    destruct (Z.ltb_spec (2 ^ 63 - 1) ub') as [Hbig|_].
    { specialize (Hfit w ub' (list_elem_of_here _ _)). lia. }
    destruct (Z.ltb_spec ub' 0) as [|Hpos]; [done|].
    apply elem_of_cons in Hin as [[= -> ->]|Hin]; [lia|].
    destruct (integers g 0 (ub' + 1)) as [x g1]. apply IH; [|done..].
    intros w' ub'' Hw. apply (Hfit w'). by right.
Qed.

Lemma le_satisfies_feasible (cons : list constraint) (d : gmap string pynum)
    (vs : list string) :
  (∀ con, con ∈ cons → con_sense con = "<=") →
  le_satisfies cons d vs → satisfies cons d vs.
Proof.
  intros Hs. unfold le_satisfies, satisfies. rewrite !Forall_forall.
  intros HF con Hcon. specialize (HF con Hcon). unfold holds.
  rewrite (Hs con Hcon). split_and!; intros; done.
Qed.

Lemma within_bounds_in_grid (vbs : list (string * Z)) (d : gmap string pynum) :
  within_bounds vbs d → in_grid vbs 1 d.
Proof.
  intros W v ub Hv. destruct (W v ub Hv) as (z & Hz & Hd).
  exists z. split_and!; [lia | lia |]. rewrite Hd. do 2 f_equal. lia.
Qed.

Lemma sample_once_negative_bound {rng_t : Type}
    (integers : rng_t → Z → Z → Z * rng_t) (lp : lp_t)
    (acc : list (gmap string pynum) * rng_t) (v : string) (ub : Z) :
  (∀ w ub', (w, ub') ∈ vars lp → ub' ≤ 2 ^ 63 - 1) →
  (v, ub) ∈ vars lp → ub < 0 →
  Core.sample_once integers lp acc = Raise (ValueError "high <= 0").
Proof.
  intros Hfit Hin Hub. unfold Core.sample_once, var_names, bounds.
  rewrite zip_fst_snd.
  by rewrite (draw_trial_negative_bound integers (vars lp) ∅ _ v ub Hfit Hin Hub).
Qed.

(** X12: with a sample count of zero or less [sample_lp] draws nothing and
    ends in [KeyError("objective")], for every problem and generator. *)
Theorem sampler_nonpositive_count_raises {rng_t : Type}
    (default_rng : option Z → rng_t) (integers : rng_t → Z → Z → Z * rng_t)
    (shuffle : list (gmap string pynum) → list (gmap string pynum))
    (lp : lp_t) (num_samples : Z) (seed : option Z) :
  num_samples ≤ 0 →
  Core.sample_lp default_rng integers shuffle lp num_samples seed
  = Raise (KeyError "objective").
Proof.
  intros Hn. unfold Core.sample_lp, Core.sample_rows.
  rewrite (range_values_nonpositive num_samples Hn). simpl.
  by rewrite sort_values_desc_empty.
Qed.

(** X13: with a positive sample count, no upper bound beyond the 64-bit
    range and a variable whose upper bound is negative, the first draw asks
    for an integer from an empty interval [[0, ub + 1)] and [sample_lp]
    ends in [ValueError("high <= 0")]. *)
Theorem sampler_negative_bound_raises {rng_t : Type}
    (default_rng : option Z → rng_t) (integers : rng_t → Z → Z → Z * rng_t)
    (shuffle : list (gmap string pynum) → list (gmap string pynum))
    (lp : lp_t) (num_samples : Z) (seed : option Z) (v : string) (ub : Z) :
  0 < num_samples →
  (∀ w ub', (w, ub') ∈ vars lp → ub' ≤ 2 ^ 63 - 1) →
  (v, ub) ∈ vars lp →
  ub < 0 →
  Core.sample_lp default_rng integers shuffle lp num_samples seed
  = Raise (ValueError "high <= 0").
Proof.
  intros Hn Hfit Hin Hub. unfold Core.sample_lp, Core.sample_rows.
  destruct (range_values_positive num_samples Hn) as [l ->].
  cbn [for_each].
  by rewrite (sample_once_negative_bound integers lp _ v ub Hfit Hin Hub).
Qed.

(** X14: the first row that [sample_lp] returns has the largest objective
    value of all rows kept by the sampling loop (for a generator that draws
    from [[low, high)], a sort that only rearranges rows, and a problem with
    no variable named ["objective"] whose coefficient sums
    [Σ |coeff[v]| * ub[v]] stay below [2^63], so that no 64-bit sum
    wraps). *)
Theorem sampler_first_row_is_best {rng_t : Type}
    (default_rng : option Z → rng_t) (integers : rng_t → Z → Z → Z * rng_t)
    (shuffle : list (gmap string pynum) → list (gmap string pynum))
    (lp : lp_t) (num_samples : Z) (seed : option Z)
    (kept rows : list (gmap string pynum)) (g' : rng_t) (top : gmap string pynum) :
  (∀ g low high, low < high → low ≤ (integers g low high).1 < high) →
  (∀ l, shuffle l ≡ₚ l) →
  NoDup (var_names lp) →
  "objective" ∉ var_names lp →
  int64_safe lp →
  Core.sample_rows integers lp num_samples (default_rng seed) = Ok (kept, g') →
  Core.sample_lp default_rng integers shuffle lp num_samples seed = Ok (top :: rows) →
  ∀ r, r ∈ kept → objective_value lp r ≤ objective_value lp top.
Proof.
  intros Hrange Hshuffle Hnd Hno Hsafe Hkept Hrun r Hr.
  pose proof (sample_loop_spec integers Hrange lp Hnd Hno Hsafe _ _ _ _ _ Hkept
                (Forall_nil_2 _)) as Hrows.
  unfold Core.sample_lp in Hrun. rewrite Hkept in Hrun. simpl in Hrun.
  apply bind_Ok in Hrun as (sorted & Hsort & [= Htake]).
  apply (sort_values_desc_Ok _ _ _ _ Hshuffle) in Hsort as [Hperm Hsorted].
  destruct sorted as [|top' sorted]; [done|].
  injection Htake as -> _.
  rewrite <- Hperm in Hr, Hrows. rewrite Forall_forall in Hrows.
  apply elem_of_cons in Hr as [->|Hr]; [done|].
  apply StronglySorted_cons in Hsorted as [Hall _].
  rewrite Forall_forall in Hall.
  apply (sampled_row_before lp top r).
  - apply Hrows. by left.
  - apply Hrows. by right.
  - by apply Hall.
Qed.

(** X15: sampling never beats the exhaustive search: on a maximisation
    problem with ["<="] constraints only, no variable named ["objective"]
    and coefficient sums [Σ |coeff[v]| * ub[v]] below [2^63] (so that no
    64-bit sum wraps), no row returned by [sample_lp] has a larger
    objective value than the result of [brute_force_lp_friendly] with
    step 1. *)
Theorem sampler_never_beats_search {rng_t : Type}
    (default_rng : option Z → rng_t) (integers : rng_t → Z → Z → Z * rng_t)
    (shuffle : list (gmap string pynum) → list (gmap string pynum))
    (lp : lp_t) (num_samples : Z) (seed : option Z)
    (rows : list (gmap string pynum))
    (best : gmap string pynum) (report : list Friendly.row) :
  (∀ g low high, low < high → low ≤ (integers g low high).1 < high) →
  (∀ l, shuffle l ≡ₚ l) →
  NoDup (var_names lp) →
  "objective" ∉ var_names lp →
  int64_safe lp →
  objective_sense lp = "max" →
  (∀ con, con ∈ constraints lp → con_sense con = "<=") →
  Friendly.brute_force_lp_friendly lp 1 = Ok (best, report) →
  Core.sample_lp default_rng integers shuffle lp num_samples seed = Ok rows →
  ∀ r, r ∈ rows → objective_value lp r ≤ objective_value lp best.
Proof.
  intros Hrange Hshuffle Hnd Hno Hsafe Hmax Hsense Hbest Hrun r Hr.
  destruct (sample_lp_rows default_rng integers shuffle Hrange Hshuffle lp Hnd Hno
              Hsafe _ _ _ Hrun) as (_ & Hrows & _).
  rewrite Forall_forall in Hrows. destruct (Hrows r Hr) as (W & Fle & _).
  assert (0 < 1) as H1 by lia.
  destruct (merged_optimum_on_grid lp 1 best report H1 Hnd Hno Hbest)
    as (_ & _ & _ & Hopt & _).
  apply (Hopt Hmax).
  - by apply within_bounds_in_grid.
  - by apply le_satisfies_feasible.
Qed.

(** ** The validation of [parse_word_problem] *)

Lemma is_str_true (key : string) (j : Parser.json) :
  Parser.is_str key j = true ↔ j = Parser.JStr key.
Proof.
  destruct j; simpl; try (split; [done | discriminate]).
  rewrite String.eqb_eq. split; [by intros -> | by intros [= ->]].
Qed.

Lemma py_in_array (key : string) (items : list Parser.json) :
  Parser.JStr key ∈ items →
  Parser.py_in key (Parser.JArr items) = Parser.Return true.
Proof.
  intros Hin. simpl. f_equal. apply existsb_exists.
  exists (Parser.JStr key). split; [by apply list_elem_of_In | by apply is_str_true].
Qed.

(** X16: when the decoder yields a JSON object, [parse_word_problem]
    returns that object unchanged if it has the keys ["objective"],
    ["vars"] and ["constraints"], and otherwise raises
    [ValueError("Parsed JSON missing required keys.")]; nothing else about
    the object is checked. *)
Theorem parse_object_iff_keys (_llm_extract : string → string → string)
    (json_loads : string → string + Parser.json)
    (problem_text model : string) (fields : list (string * Parser.json)) :
  json_loads (_llm_extract problem_text model) = inr (Parser.JObj fields) →
  ((∀ k, k ∈ required_keys → k ∈ fields.*1) →
   Parser.parse_word_problem _llm_extract json_loads problem_text model
   = Parser.Return (Parser.JObj fields)) ∧
  (¬ (∀ k, k ∈ required_keys → k ∈ fields.*1) →
   Parser.parse_word_problem _llm_extract json_loads problem_text model
   = Parser.Fail Parser.missing_keys).
Proof.
  intros Hload. unfold Parser.parse_word_problem. rewrite Hload.
  unfold Parser.validate, Parser.py_in, required_keys. split.
  - intros Hall.
    rewrite !bool_decide_eq_true_2; [done | | |]; apply Hall; set_solver.
  - intros Hnot.
    destruct (bool_decide_reflect ("objective" ∈ fields.*1)) as [H1|]; [|done].
    destruct (bool_decide_reflect ("vars" ∈ fields.*1)) as [H2|]; [|done].
    destruct (bool_decide_reflect ("constraints" ∈ fields.*1)) as [H3|]; [|done].
    exfalso. apply Hnot. intros k Hk.
    repeat (apply elem_of_cons in Hk as [->|Hk]; [done|]).
    by apply elem_of_nil in Hk.
Qed.

(** X17: the validation does not ensure that the result is a dict: a JSON
    array that has the three names among its elements, and a JSON string in
    which the three names occur, are returned as they are, and a JSON
    number, boolean or null ends in an uncaught [TypeError] instead of the
    [ValueError] of the docstring. *)
Theorem parse_accepts_non_objects (_llm_extract : string → string → string)
    (json_loads : string → string + Parser.json)
    (problem_text model : string) (lp : Parser.json) :
  json_loads (_llm_extract problem_text model) = inr lp →
  (∀ items, lp = Parser.JArr items →
     (∀ k, k ∈ required_keys → Parser.JStr k ∈ items) →
     Parser.parse_word_problem _llm_extract json_loads problem_text model
     = Parser.Return lp) ∧
  (∀ s, lp = Parser.JStr s →
     (∀ k, k ∈ required_keys → Parser.contains k s = true) →
     Parser.parse_word_problem _llm_extract json_loads problem_text model
     = Parser.Return lp) ∧
  ((lp = Parser.JNull ∨ (∃ b, lp = Parser.JBool b) ∨ (∃ z, lp = Parser.JInt z) ∨
    (∃ t, lp = Parser.JFloat t)) →
   ∃ type_name,
     Parser.parse_word_problem _llm_extract json_loads problem_text model
     = Parser.Fail (Parser.TypeError type_name)).
Proof.
  intros Hload. unfold Parser.parse_word_problem. rewrite Hload.
  unfold required_keys. split_and!.
  - intros items -> Hall. unfold Parser.validate.
    rewrite !py_in_array; [done | | |]; apply Hall; set_solver.
  - intros s -> Hall. unfold Parser.validate, Parser.py_in.
    rewrite !Hall; [done | | |]; set_solver.
  - intros [->|[[b ->]|[[z ->]|[t ->]]]]; simpl; eauto.
Qed.

(** ** The counter of feasible combinations *)

Lemma visit_counter (lp : lp_t) (t : gmap string pynum)
    (st st' : Friendly.search_state) :
  Friendly.visit lp t st = Ok st' →
  Friendly.counter st' = Friendly.counter st + count_feasible lp [t].
Proof.
  unfold Friendly.visit, count_feasible, Zsum. simpl.
  destruct (Friendly._feasible t (constraints lp) (var_names lp)) as [[|]|e];
    simpl; [| intros [= <-]; lia | done].
  intros Hv. apply bind_Ok in Hv as (obj & _ & Hv).
  destruct (if Friendly.is_max lp then _ else _); injection Hv as <-; simpl; lia.
Qed.

Lemma visit_all_counter (lp : lp_t) (l : list (gmap string pynum))
    (st st' : Friendly.search_state) :
  visit_all lp l st = Ok st' →
  Friendly.counter st' = Friendly.counter st + count_feasible lp l.
Proof.
  revert st. induction l as [|t l IH]; intros st Hrun.
  - injection Hrun as <-. unfold count_feasible. simpl. lia.
  - rewrite visit_all_cons in Hrun. apply bind_Ok in Hrun as (st1 & H1 & Hrun).
    rewrite (IH _ Hrun), (visit_counter lp t st st1 H1).
    unfold count_feasible. simpl. lia.
Qed.

(** X18: for a non-zero step, the counter that the search prints at the
    end is the number of complete trials, in enumeration order, on which
    [_feasible] returned [True]; infeasible trials are not counted. *)
Theorem counter_counts_feasible (lp : lp_t) (step : Z)
    (st : Friendly.search_state) :
  step ≠ 0 →
  Friendly.recurse lp step (vars lp) ∅ (init_state lp) = Ok st →
  Friendly.counter st = count_feasible lp (enum step (vars lp) ∅) ∧
  0 ≤ Friendly.counter st ≤ Z.of_nat (length (enum step (vars lp) ∅)).
Proof.
  intros Hstep Hrun. rewrite (recurse_enum lp step (vars lp) Hstep) in Hrun.
  apply visit_all_counter in Hrun. simpl in Hrun. split; [lia|].
  rewrite Hrun. clear Hrun. unfold count_feasible.
  induction (enum step (vars lp) ∅) as [|t l IH]; simpl; [lia|].
  destruct (Friendly._feasible t _ _) as [[|]|]; lia.
Qed.

(** ** The further properties at concrete inputs *)

Lemma obj_coeffs_check (lp : lp_t) :
  forallb (fun v => bool_decide (is_Some (obj_coeff (objective lp) !! v)))
          (var_names lp) = true →
  ∀ v, v ∈ var_names lp → is_Some (obj_coeff (objective lp) !! v).
Proof.
  rewrite forallb_forall. intros H v Hv. apply list_elem_of_In in Hv.
  specialize (H v Hv). by apply bool_decide_eq_true in H.
Qed.

Lemma senses_check (lp : lp_t) :
  forallb (fun con => String.eqb (con_sense con) "<=") (constraints lp) = true →
  ∀ con, con ∈ constraints lp → con_sense con = "<=".
Proof.
  rewrite forallb_forall. intros H con Hcon. apply list_elem_of_In in Hcon.
  specialize (H con Hcon). by apply String.eqb_eq.
Qed.

Lemma lp_infeasible_no_grid_point (d : gmap string pynum) :
  in_grid (vars lp_infeasible) 1 d → ¬ feasible_at lp_infeasible d.
Proof.
  intros G F. destruct (G "x" 15) as (k & Hk0 & _ & Hv); [by left|].
  apply Forall_cons in F as [(Hle & _) _]. specialize (Hle eq_refl).
  unfold weighted_sum, Zsum, value in Hle. simpl in Hle.
  rewrite Hv in Hle. rewrite lookup_singleton_eq in Hle. simpl in Hle. lia.
Qed.

Lemma lp_scenario_b_origin :
  ∃ d, in_grid (vars lp_scenario_b) 1 d ∧
       le_satisfies (constraints lp_scenario_b) d (var_names lp_scenario_b).
Proof.
  exists {[ "x" := Int 0; "y" := Int 0 ]}. split.
  - apply (in_grid_cons _ _ _ 0); [lia | lia | done |].
    apply (in_grid_cons _ _ _ 0); [lia | lia | done |]. apply in_grid_nil.
  - repeat constructor. by vm_compute.
Qed.

Lemma friendly_raises_iff_infeasible_witness :
  Friendly.brute_force_lp_friendly lp_infeasible 1
  = Raise (ValueError "No feasible solution found.")
  ↔ ∀ d, in_grid (vars lp_infeasible) 1 d → ¬ feasible_at lp_infeasible d.
Proof.
  apply (friendly_raises_iff_infeasible lp_infeasible 1).
  - lia.
  - apply (bool_decide_unpack _). vm_compute. exact I.
  - apply obj_coeffs_check. vm_compute. reflexivity.
Defined.

Lemma zero_step_raises_witness :
  Friendly.brute_force_lp_friendly lp_scenario_b 0
  = Raise (ValueError "range() arg 3 must not be zero") ∧
  Core.brute_force_lp lp_scenario_b 0
  = Raise (ValueError "range() arg 3 must not be zero").
Proof.
  apply (zero_step_raises lp_scenario_b). simpl. discriminate.
Defined.

Lemma negative_step_finds_nothing_witness :
  Friendly.brute_force_lp_friendly lp_scenario_b (-1)
  = Raise (ValueError "No feasible solution found.").
Proof.
  apply (negative_step_finds_nothing lp_scenario_b (-1) "x" 5).
  - lia.
  - apply (bool_decide_unpack _). vm_compute. exact I.
  - lia.
Defined.

Lemma friendly_result_keys_witness :
  dom ({[ "x" := Int 0; "y" := Int 5; "objective" := Int 15 ]} : gmap string pynum)
  = list_to_set (var_names lp_scenario_b) ∪ {[ "objective" ]} ∧
  length [ {| Friendly.row_constraint := "sum"; Friendly.row_lhs := Int 5;
              Friendly.row_rhs := 5; Friendly.row_sense := "<=";
              Friendly.row_slack := Int 0 |} ]
  = length (constraints lp_scenario_b).
Proof.
  apply (friendly_result_keys lp_scenario_b 1).
  - lia.
  - apply (bool_decide_unpack _). vm_compute. exact I.
  - vm_compute. reflexivity.
Defined.

Lemma friendly_report_slack_nonneg_witness :
  Forall (fun r => ∃ s : Z, Friendly.row_slack r = Int s ∧ 0 ≤ s)
    [ {| Friendly.row_constraint := "sum"; Friendly.row_lhs := Int 4;
         Friendly.row_rhs := 5; Friendly.row_sense := "<=";
         Friendly.row_slack := Int 1 |} ].
Proof.
  apply (friendly_report_slack_nonneg lp_scenario_b 2
           {[ "x" := Int 0; "y" := Int 4; "objective" := Int 12 ]}).
  - lia.
  - apply (bool_decide_unpack _). vm_compute. exact I.
  - apply (bool_decide_unpack _). vm_compute. exact I.
  - vm_compute. reflexivity.
Defined.

Lemma coarser_grid_never_better_witness :
  (objective_sense lp_scenario_b = "max" →
   objective_value lp_scenario_b
     {[ "x" := Int 0; "y" := Int 4; "objective" := Int 12 ]}
   ≤ objective_value lp_scenario_b
       {[ "x" := Int 0; "y" := Int 5; "objective" := Int 15 ]}) ∧
  (objective_sense lp_scenario_b = "min" →
   objective_value lp_scenario_b
     {[ "x" := Int 0; "y" := Int 5; "objective" := Int 15 ]}
   ≤ objective_value lp_scenario_b
       {[ "x" := Int 0; "y" := Int 4; "objective" := Int 12 ]}).
Proof.
  apply (coarser_grid_never_better lp_scenario_b 1 2
           {[ "x" := Int 0; "y" := Int 5; "objective" := Int 15 ]}
           {[ "x" := Int 0; "y" := Int 4; "objective" := Int 12 ]}
           [ {| Friendly.row_constraint := "sum"; Friendly.row_lhs := Int 5;
                Friendly.row_rhs := 5; Friendly.row_sense := "<=";
                Friendly.row_slack := Int 0 |} ]
           [ {| Friendly.row_constraint := "sum"; Friendly.row_lhs := Int 4;
                Friendly.row_rhs := 5; Friendly.row_sense := "<=";
                Friendly.row_slack := Int 1 |} ]).
  - lia.
  - lia.
  - apply (bool_decide_unpack _). vm_compute. exact I.
  - apply (bool_decide_unpack _). vm_compute. exact I.
  - vm_compute. reflexivity.
  - vm_compute. reflexivity.
Defined.

Lemma unknown_sense_is_ignored_witness :
  Friendly._feasible {[ "x" := Int 2; "y" := Int 3 ]}
    ({| name := "typo"; coeff := {[ "x" := 1 ]}; sense := Some "<"; rhs := 0 |}
     :: constraints lp_scenario_b) ["x"; "y"]
  = Friendly._feasible {[ "x" := Int 2; "y" := Int 3 ]}
      (constraints lp_scenario_b) ["x"; "y"] ∧
  ∃ r, Friendly.report_row
         {| name := "typo"; coeff := {[ "x" := 1 ]}; sense := Some "<"; rhs := 0 |}
         {[ "x" := Int 2; "y" := Int 3 ]} ["x"; "y"] = Ok r ∧
       Friendly.row_slack r = Int 0.
Proof.
  apply (unknown_sense_is_ignored {[ "x" := Int 2; "y" := Int 3 ]}).
  - apply complete_check. vm_compute. reflexivity.
  - unfold known_sense. simpl. intros [H|[H|H]]; discriminate H.
Defined.

Lemma feasible_missing_variable_witness :
  Friendly._feasible {[ "x" := Int 1 ]}
    [ {| name := "sum"; coeff := {[ "x" := 1; "y" := 1 ]}; sense := None; rhs := 5 |} ]
    (["x"] ++ "y" :: []) = Raise (KeyError "y") ∧
  Friendly._feasible {[ "x" := Int 1 ]} [] (["x"] ++ "y" :: []) = Ok true.
Proof.
  apply (feasible_missing_variable {[ "x" := Int 1 ]}).
  - apply complete_check. vm_compute. reflexivity.
  - vm_compute. reflexivity.
Defined.

Lemma friendly_sense_lowercased_witness :
  (lower (objective_sense lp_scenario_b) = "max" →
   ∀ d, in_grid (vars lp_scenario_b) 1 d → feasible_at lp_scenario_b d →
        objective_value lp_scenario_b d
        ≤ objective_value lp_scenario_b
            {[ "x" := Int 0; "y" := Int 5; "objective" := Int 15 ]}) ∧
  (lower (objective_sense lp_scenario_b) ≠ "max" →
   ∀ d, in_grid (vars lp_scenario_b) 1 d → feasible_at lp_scenario_b d →
        objective_value lp_scenario_b
          {[ "x" := Int 0; "y" := Int 5; "objective" := Int 15 ]}
        ≤ objective_value lp_scenario_b d).
Proof.
  apply (friendly_sense_lowercased lp_scenario_b 1
           {[ "x" := Int 0; "y" := Int 5; "objective" := Int 15 ]}
           [ {| Friendly.row_constraint := "sum"; Friendly.row_lhs := Int 5;
                Friendly.row_rhs := 5; Friendly.row_sense := "<=";
                Friendly.row_slack := Int 0 |} ]).
  - lia.
  - apply (bool_decide_unpack _). vm_compute. exact I.
  - apply (bool_decide_unpack _). vm_compute. exact I.
  - vm_compute. reflexivity.
Defined.

Lemma plain_agrees_with_friendly_witness :
  Core.brute_force_lp lp_scenario_b 1
  = Ok ({[ "x" := Int 0; "y" := Int 5; "objective" := Int 15 ]},
        plain_row_of <$>
          [ {| Friendly.row_constraint := "sum"; Friendly.row_lhs := Int 5;
               Friendly.row_rhs := 5; Friendly.row_sense := "<=";
               Friendly.row_slack := Int 0 |} ]).
Proof.
  apply (plain_agrees_with_friendly lp_scenario_b 1).
  - lia.
  - apply (bool_decide_unpack _). vm_compute. exact I.
  - split; [reflexivity|]. apply senses_check. vm_compute. reflexivity.
  - refine (coeffs_total_check (constraints lp_scenario_b)
              (var_names lp_scenario_b) _).
    vm_compute. reflexivity.
  - vm_compute. reflexivity.
Defined.

Lemma plain_maximises_under_le_witness :
  in_grid (vars lp_scenario_b) 1
    {[ "x" := Int 0; "y" := Int 5; "objective" := Int 15 ]} ∧
  le_satisfies (constraints lp_scenario_b)
    {[ "x" := Int 0; "y" := Int 5; "objective" := Int 15 ]}
    (var_names lp_scenario_b) ∧
  ({[ "x" := Int 0; "y" := Int 5; "objective" := Int 15 ]} : gmap string pynum)
    !! "objective"
  = Some (Int (objective_value lp_scenario_b
                 {[ "x" := Int 0; "y" := Int 5; "objective" := Int 15 ]})) ∧
  ∀ d, in_grid (vars lp_scenario_b) 1 d →
       le_satisfies (constraints lp_scenario_b) d (var_names lp_scenario_b) →
       objective_value lp_scenario_b d
       ≤ objective_value lp_scenario_b
           {[ "x" := Int 0; "y" := Int 5; "objective" := Int 15 ]}.
Proof.
  apply (plain_maximises_under_le lp_scenario_b 1
           {[ "x" := Int 0; "y" := Int 5; "objective" := Int 15 ]}
           [ {| Core.row_constraint := "sum"; Core.row_lhs := Int 5;
                Core.row_rhs := 5 |} ]).
  - lia.
  - apply (bool_decide_unpack _). vm_compute. exact I.
  - apply (bool_decide_unpack _). vm_compute. exact I.
  - refine (coeffs_total_check (constraints lp_scenario_b)
              (var_names lp_scenario_b) _).
    vm_compute. reflexivity.
  - exact lp_scenario_b_origin.
  - vm_compute. reflexivity.
Defined.

Lemma sampler_nonpositive_count_raises_witness :
  Core.sample_lp lcg_default lcg_integers id lp_scenario_b 0 (Some 7)
  = Raise (KeyError "objective").
Proof.
  apply (sampler_nonpositive_count_raises lcg_default lcg_integers id
           lp_scenario_b 0 (Some 7)).
  lia.
Defined.

Lemma sampler_negative_bound_raises_witness :
  Core.sample_lp lcg_default lcg_integers id lp_negative_bound 5 (Some 7)
  = Raise (ValueError "high <= 0").
Proof.
  apply (sampler_negative_bound_raises lcg_default lcg_integers id
           lp_negative_bound 5 (Some 7) "y" (-1)).
  - lia.
  - intros w ub' Hw. apply list_elem_of_In in Hw.
    destruct Hw as [[= <- <-]|[[= <- <-]|[]]]; by vm_compute.
  - apply (bool_decide_unpack _). vm_compute. exact I.
  - lia.
Defined.

Lemma sampler_first_row_is_best_witness :
  Forall (fun r => objective_value lp_scenario_b r
                   ≤ objective_value lp_scenario_b
                       {[ "x" := Int 1; "y" := Int 4; "objective" := Int 14 ]})
    [ ({[ "x" := Int 1; "y" := Int 0; "objective" := Int 2 ]} : gmap string pynum);
      {[ "x" := Int 1; "y" := Int 4; "objective" := Int 14 ]} ].
Proof.
  apply Forall_forall.
  apply (sampler_first_row_is_best lcg_default lcg_integers id lp_scenario_b 3 (Some 1)
           _ [ {[ "x" := Int 1; "y" := Int 0; "objective" := Int 2 ]} ] 368800899).
  - exact lcg_integers_range.
  - intros l. reflexivity.
  - apply (bool_decide_unpack _). vm_compute. exact I.
  - apply (bool_decide_unpack _). vm_compute. exact I.
  - apply int64_safe_check. vm_compute. reflexivity.
  - vm_compute. reflexivity.
  - vm_compute. reflexivity.
Defined.

Lemma sampler_never_beats_search_witness :
  Forall (fun r => objective_value lp_scenario_b r
                   ≤ objective_value lp_scenario_b
                       {[ "x" := Int 0; "y" := Int 5; "objective" := Int 15 ]})
    [ ({[ "x" := Int 1; "y" := Int 4; "objective" := Int 14 ]} : gmap string pynum);
      {[ "x" := Int 1; "y" := Int 0; "objective" := Int 2 ]} ].
Proof.
  apply Forall_forall.
  apply (sampler_never_beats_search lcg_default lcg_integers id lp_scenario_b 3 (Some 1)
           _ _ [ {| Friendly.row_constraint := "sum"; Friendly.row_lhs := Int 5;
                    Friendly.row_rhs := 5; Friendly.row_sense := "<=";
                    Friendly.row_slack := Int 0 |} ]).
  - exact lcg_integers_range.
  - intros l. reflexivity.
  - apply (bool_decide_unpack _). vm_compute. exact I.
  - apply (bool_decide_unpack _). vm_compute. exact I.
  - apply int64_safe_check. vm_compute. reflexivity.
  - reflexivity.
  - apply senses_check. vm_compute. reflexivity.
  - vm_compute. reflexivity.
  - vm_compute. reflexivity.
Defined.

Lemma parse_object_iff_keys_witness :
  ((∀ k, k ∈ required_keys →
         k ∈ [("objective", Parser.JNull); ("vars", Parser.JNull);
              ("constraints", Parser.JArr [])].*1) →
   Parser.parse_word_problem (fixed_extract "{}")
     (fixed_loads (Parser.JObj [("objective", Parser.JNull); ("vars", Parser.JNull);
                                ("constraints", Parser.JArr [])]))
     "maximise profit" "gpt-4o"
   = Parser.Return (Parser.JObj [("objective", Parser.JNull); ("vars", Parser.JNull);
                                 ("constraints", Parser.JArr [])])) ∧
  (¬ (∀ k, k ∈ required_keys →
           k ∈ [("objective", Parser.JNull); ("vars", Parser.JNull);
                ("constraints", Parser.JArr [])].*1) →
   Parser.parse_word_problem (fixed_extract "{}")
     (fixed_loads (Parser.JObj [("objective", Parser.JNull); ("vars", Parser.JNull);
                                ("constraints", Parser.JArr [])]))
     "maximise profit" "gpt-4o"
   = Parser.Fail Parser.missing_keys).
Proof.
  apply (parse_object_iff_keys (fixed_extract "{}")
           (fixed_loads (Parser.JObj [("objective", Parser.JNull);
                                      ("vars", Parser.JNull);
                                      ("constraints", Parser.JArr [])]))
           "maximise profit" "gpt-4o").
  reflexivity.
Defined.

Lemma parse_accepts_non_objects_witness :
  Parser.parse_word_problem (fixed_extract "[]")
    (fixed_loads (Parser.JArr [Parser.JStr "objective"; Parser.JStr "vars";
                               Parser.JStr "constraints"]))
    "maximise profit" "gpt-4o"
  = Parser.Return (Parser.JArr [Parser.JStr "objective"; Parser.JStr "vars";
                                Parser.JStr "constraints"]).
Proof.
  eapply (proj1 (parse_accepts_non_objects (fixed_extract "[]")
           (fixed_loads (Parser.JArr [Parser.JStr "objective"; Parser.JStr "vars";
                                      Parser.JStr "constraints"]))
           "maximise profit" "gpt-4o" _ _)).
  - reflexivity.
  - intros k Hk. unfold required_keys in Hk.
    repeat (apply elem_of_cons in Hk as [->|Hk];
            [apply list_elem_of_In; simpl; tauto|]).
    by apply elem_of_nil in Hk.
  Unshelve. reflexivity.
Defined.

Lemma counter_counts_feasible_witness :
  Friendly.counter
    {| Friendly.best_obj := Int 15;
       Friendly.best_soln := Some {[ "x" := Int 0; "y" := Int 5 ]};
       Friendly.counter := 21 |}
  = count_feasible lp_scenario_b (enum 1 (vars lp_scenario_b) ∅) ∧
  0 ≤ Friendly.counter
        {| Friendly.best_obj := Int 15;
           Friendly.best_soln := Some {[ "x" := Int 0; "y" := Int 5 ]};
           Friendly.counter := 21 |}
    ≤ Z.of_nat (length (enum 1 (vars lp_scenario_b) ∅)).
Proof.
  apply (counter_counts_feasible lp_scenario_b 1).
  - lia.
  - vm_compute. reflexivity.
Defined.
